(** * Password Strength Analyzer: the analysis engine of [PasswordAnalyzer]

    A shallow embedding of the class [PasswordAnalyzer] (entropy metrics,
    pattern detectors, weighted score, crack-time estimate, recommendations
    and issue list) and the properties the specification states about it.

    Conventions of the embedding.
    - A JavaScript string is the list of its UTF-16 code units.  [length] is
      [password.length]; iterating a string ([for ... of], [new Set(string)])
      yields one string per code point, see [chars].
    - A JavaScript number is a [number]: a real, or one of the special values
      [Infinity], [-Infinity], [NaN].  Arithmetic on finite values is exact
      (rounding of doubles is not represented); the special values follow
      IEEE 754 / ECMAScript, and [Math.pow] overflows to [Infinity] past the
      range of doubles.
    - The regular expressions of the class carry neither the [g] nor the [y]
      flag, so [RegExp.prototype.test] neither reads nor writes [lastIndex]:
      a regular expression is an immutable value here. *)

From Stdlib Require Import List ZArith NArith Bool String Ascii Lia Reals Lra.
From Stdlib Require Import DecimalString.
Import ListNotations.

(** ** Strings *)

Module Str.

Local Open Scope N_scope.

Definition codeUnit := N.
Definition jsString := list codeUnit.

(** A string literal of the source (all of them are ASCII). *)
Definition lit (s : string) : jsString :=
  map N_of_ascii (list_ascii_of_string s).

Definition inRange (lo hi u : codeUnit) : bool := ((lo <=? u) && (u <=? hi)).

Definition isLower (u : codeUnit) : bool := inRange 97 122 u.   (* [a-z] *)
Definition isUpper (u : codeUnit) : bool := inRange 65 90 u.    (* [A-Z] *)
Definition isDigit (u : codeUnit) : bool := inRange 48 57 u.    (* [0-9], \d *)
Definition isAlnum (u : codeUnit) : bool := isLower u || isUpper u || isDigit u.
(* \w, the word characters that decide \b: [A-Za-z0-9_] *)
Definition isWord (u : codeUnit) : bool := isAlnum u || (u =? 95).

Definition isHighSurrogate (u : codeUnit) : bool := inRange 55296 56319 u.
Definition isLowSurrogate (u : codeUnit) : bool := inRange 56320 57343 u.

(** String iteration ([String.prototype[Symbol.iterator]]): one string per
    code point; a high surrogate followed by a low surrogate is one element
    of two code units, every other code unit is an element of its own. *)
Fixpoint chars (s : jsString) : list jsString :=
  match s with
  | [] => []
  | h :: t =>
      match t with
      | l :: t' =>
          if isHighSurrogate h && isLowSurrogate l
          then [h; l] :: chars t'
          else [h] :: chars t
      | [] => [[h]]
      end
  end.

(** WhiteSpace and LineTerminator code points, stripped by [trim]. *)
Definition isWhiteSpace (u : codeUnit) : bool :=
  inRange 9 13 u || (u =? 32) || (u =? 160) || (u =? 5760)
  || inRange 8192 8202 u || (u =? 8232) || (u =? 8233)
  || (u =? 8239) || (u =? 8287) || (u =? 12288) || (u =? 65279).

Fixpoint trimStart (s : jsString) : jsString :=
  match s with
  | u :: t => if isWhiteSpace u then trimStart t else s
  | [] => []
  end.

Definition trim (s : jsString) : jsString :=
  rev (trimStart (rev (trimStart s))).

(** [toLowerCase], as far as it can produce an ASCII letter: [A-Z] and the
    Kelvin sign U+212A (whose lower case is [k]).  Every other code unit has
    a lower case outside ASCII (possibly of several code units); it is left
    in place, which does not change whether the result equals an ASCII
    word. *)
Definition lowerUnit (u : codeUnit) : codeUnit :=
  if isUpper u then (u + 32) else if (u =? 8490) then 107 else u.

Definition toLowerCase (s : jsString) : jsString := map lowerUnit s.

Definition eqb (a b : jsString) : bool :=
  if list_eq_dec N.eq_dec a b then true else false.

End Str.

Import Str.

(** ** Regular expressions *)

Module RegExp.

Local Open Scope N_scope.

(** The constructs the patterns of the class use. *)
Inductive regex : Type :=
| Cls (f : codeUnit -> bool)        (* one code unit of a class *)
| Eps                               (* the empty pattern *)
| Seq (r1 r2 : regex)               (* r1 r2 *)
| Alt (r1 r2 : regex)               (* r1|r2 *)
| WordB                             (* \b *)
| DotBackref (n : nat).             (* (.)\1{n,} *)

Definition Opt (r : regex) : regex := Alt r Eps.          (* r? *)

(** Canonicalize of a case-insensitive, non-unicode pattern: the upper case
    of the code unit; a code unit outside ASCII never canonicalizes to an
    ASCII one, so for the ASCII patterns of this class only [a-z] matter. *)
Definition canonicalize (u : codeUnit) : codeUnit :=
  if isLower u then (u - 32) else u.

(** A literal character, case-sensitive and under the [i] flag. *)
Definition chr (a : ascii) : regex := Cls (N.eqb (N_of_ascii a)).
Definition chrI (a : ascii) : regex :=
  Cls (fun u => (canonicalize u =? canonicalize (N_of_ascii a))).

(** A character class given by its members, e.g. [[4@]]. *)
Definition oneOf (s : string) : regex :=
  Cls (fun u => existsb (N.eqb u) (lit s)).
Definition oneOfI (s : string) : regex :=
  Cls (fun u => existsb (fun c => (canonicalize u =? canonicalize c)) (lit s)).

Definition digit : regex := Cls isDigit.               (* \d *)
Definition range (lo hi : ascii) : regex :=              (* [lo-hi] *)
  Cls (inRange (N_of_ascii lo) (N_of_ascii hi)).

Fixpoint seqs (rs : list regex) : regex :=
  match rs with
  | [] => Eps
  | [r] => r
  | r :: rs' => Seq r (seqs rs')
  end.

Fixpoint alts (r : regex) (rs : list regex) : regex :=
  match rs with
  | [] => r
  | r' :: rs' => Alt r (alts r' rs')
  end.

(** A literal word. *)
Definition word (s : string) : regex := seqs (map chr (list_ascii_of_string s)).
Definition wordI (s : string) : regex := seqs (map chrI (list_ascii_of_string s)).

Definition isWordAt (o : option codeUnit) : bool :=
  match o with Some u => isWord u | None => false end.

(** [.] matches every code unit but the line terminators. *)
Definition isLineTerminator (u : codeUnit) : bool :=
  (u =? 10) || (u =? 13) || (u =? 8232) || (u =? 8233).

(** [\1{n,}] once the group has captured [a]: at least [n] more copies of
    [a], then the continuation. *)
Fixpoint copiesK (a : codeUnit) (n : nat) (prev : option codeUnit) (s : jsString)
         (k : option codeUnit -> jsString -> bool) {struct s} : bool :=
  match n with
  | O => k prev s
         || match s with
            | u :: t => (u =? a) && copiesK a O (Some u) t k
            | [] => false
            end
  | S n' => match s with
            | u :: t => (u =? a) && copiesK a n' (Some u) t k
            | [] => false
            end
  end.

(** Backtracking matcher in continuation-passing style.  [prev] is the code
    unit before the current position (none at the start of the input), [s]
    the rest of the input, [k] what must match after [r]. *)
Fixpoint matchK (r : regex) (prev : option codeUnit) (s : jsString)
         (k : option codeUnit -> jsString -> bool) : bool :=
  match r with
  | Cls f => match s with
             | u :: t => f u && k (Some u) t
             | [] => false
             end
  | Eps => k prev s
  | Seq r1 r2 => matchK r1 prev s (fun p' s' => matchK r2 p' s' k)
  | Alt r1 r2 => matchK r1 prev s k || matchK r2 prev s k
  | WordB => xorb (isWordAt prev) (isWordAt (hd_error s)) && k prev s
  | DotBackref n =>
      match s with
      | a :: t => negb (isLineTerminator a) && copiesK a n (Some a) t k
      | [] => false
      end
  end.

(** A match starting at the current position or at a later one. *)
Fixpoint searchFrom (r : regex) (prev : option codeUnit) (s : jsString) : bool :=
  matchK r prev s (fun _ _ => true)
  || match s with
     | u :: t => searchFrom r (Some u) t
     | [] => false
     end.

(** [regex.test(s)] for a pattern without [g] and [y]. *)
Definition test (r : regex) (s : jsString) : bool := searchFrom r None s.

End RegExp.

Import RegExp.

(** ** Numbers *)

Module Num.

Local Open Scope R_scope.

(** A JavaScript number. *)
Inductive number : Type :=
| Fin (r : R)
| PInf
| NInf
| NaN.

Definition ofNat (n : nat) : number := Fin (INR n).
Definition ofZ (z : Z) : number := Fin (IZR z).

(** Doubles end below [2^1024]. *)
Definition doubleRange : R := 2 ^ 1024.

Definition overflow (r : R) : number :=
  if Rle_dec doubleRange r then PInf
  else if Rle_dec r (- doubleRange) then NInf
  else Fin r.

(** The infinity of the sign of [a]; [NaN] at zero ([Infinity * 0], [0 / 0]). *)
Definition infOfSign (a : R) : number :=
  if Rlt_dec 0 a then PInf else if Rlt_dec a 0 then NInf else NaN.

Definition neg (x : number) : number :=
  match x with
  | Fin r => Fin (- r)
  | PInf => NInf
  | NInf => PInf
  | NaN => NaN
  end.

Definition add (x y : number) : number :=
  match x, y with
  | NaN, _ | _, NaN => NaN
  | Fin a, Fin b => Fin (a + b)
  | PInf, NInf | NInf, PInf => NaN
  | PInf, _ | _, PInf => PInf
  | NInf, _ | _, NInf => NInf
  end.

Definition sub (x y : number) : number := add x (neg y).

Definition mul (x y : number) : number :=
  match x, y with
  | NaN, _ | _, NaN => NaN
  | Fin a, Fin b => Fin (a * b)
  | Fin a, PInf | PInf, Fin a => infOfSign a
  | Fin a, NInf | NInf, Fin a => neg (infOfSign a)
  | PInf, PInf | NInf, NInf => PInf
  | PInf, NInf | NInf, PInf => NInf
  end.

(** Zero is taken as [+0]. *)
Definition div (x y : number) : number :=
  match x, y with
  | NaN, _ | _, NaN => NaN
  | Fin a, Fin b => if Req_dec_T b 0 then infOfSign a else Fin (a / b)
  | Fin _, PInf | Fin _, NInf => Fin 0
  | PInf, Fin b => if Rlt_dec b 0 then NInf else PInf
  | NInf, Fin b => if Rlt_dec b 0 then PInf else NInf
  | _, _ => NaN
  end.

(** [x < y] *)
Definition lt (x y : number) : bool :=
  match x, y with
  | NaN, _ | _, NaN => false
  | Fin a, Fin b => if Rlt_dec a b then true else false
  | _, NInf => false
  | NInf, _ => true
  | PInf, _ => false
  | _, PInf => true
  end.

(** [x >= y] *)
Definition ge (x y : number) : bool :=
  match x, y with
  | NaN, _ | _, NaN => false
  | _, _ => negb (lt x y)
  end.

Definition Math_min (x y : number) : number :=
  match x, y with
  | NaN, _ | _, NaN => NaN
  | Fin a, Fin b => Fin (Rmin a b)
  | NInf, _ | _, NInf => NInf
  | PInf, z | z, PInf => z
  end.

Definition Math_max (x y : number) : number :=
  match x, y with
  | NaN, _ | _, NaN => NaN
  | Fin a, Fin b => Fin (Rmax a b)
  | PInf, _ | _, PInf => PInf
  | NInf, z | z, NInf => z
  end.

Definition log2 (r : R) : R := ln r / ln 2.

Definition Math_log2 (x : number) : number :=
  match x with
  | NaN | NInf => NaN
  | PInf => PInf
  | Fin r => if Rlt_dec r 0 then NaN
             else if Req_dec_T r 0 then NInf
             else Fin (log2 r)
  end.

(** The largest integer not above [r]. *)
Definition floor (r : R) : Z := Int_part r.

Definition isInteger (r : R) : bool :=
  if Req_dec_T (IZR (floor r)) r then true else false.

Definition isOddInteger (r : R) : bool := isInteger r && Z.odd (floor r).

(** [Math.pow(base, exponent)], after Number::exponentiate. *)
Definition Math_pow (base exponent : number) : number :=
  match exponent with
  | NaN => NaN
  | Fin y =>
      if Req_dec_T y 0 then Fin 1
      else match base with
           | NaN => NaN
           | PInf => if Rlt_dec 0 y then PInf else Fin 0
           | NInf => if Rlt_dec 0 y
                     then (if isOddInteger y then NInf else PInf)
                     else Fin 0
           | Fin x =>
               if Req_dec_T x 0 then (if Rlt_dec 0 y then Fin 0 else PInf)
               else if Rlt_dec 0 x then overflow (Rpower x y)
               else if isInteger y then overflow (powerRZ x (floor y))
               else NaN
           end
  | PInf =>
      match base with
      | NaN => NaN
      | Fin x => if Rlt_dec 1 (Rabs x) then PInf
                 else if Req_dec_T (Rabs x) 1 then NaN
                 else Fin 0
      | _ => PInf
      end
  | NInf =>
      match base with
      | NaN => NaN
      | Fin x => if Rlt_dec 1 (Rabs x) then Fin 0
                 else if Req_dec_T (Rabs x) 1 then NaN
                 else PInf
      | _ => Fin 0
      end
  end.

(** [Math.round]: the nearest integer, a tie going up. *)
Definition roundZ (r : R) : Z := floor (r + / 2).

Definition Math_round (x : number) : number :=
  match x with
  | Fin r => ofZ (roundZ r)
  | _ => x
  end.

(** [String(x)] for an integer below [10^21] and for the special values;
    JavaScript prints every other number in a notation that depends on the
    digits of the double, which is outside this embedding. *)
Definition toString (x : number) : option string :=
  match x with
  | NaN => Some "NaN"%string
  | PInf => Some "Infinity"%string
  | NInf => Some "-Infinity"%string
  | Fin r =>
      if isInteger r && (Z.abs (floor r) <? 10 ^ 21)%Z
      then Some (DecimalString.NilZero.string_of_int (Z.to_int (floor r)))
      else None
  end.

End Num.

Import Num.

(** ** The class [PasswordAnalyzer] *)

Local Open Scope string_scope.

Module CommonPatterns.
Record t : Type := {
  keyboard : regex;
  repeated : regex;
  sequential : regex;
  date : regex;
  leet : regex
}.
End CommonPatterns.

Record EntropyMetrics : Type := {
  shannon : number;
  nist : number;
  charset : nat;
  uniqueness : number
}.

Record PatternFlags : Type := {
  keyboard : bool;
  repeated : bool;
  sequential : bool;
  date : bool;
  leet : bool;
  dictionary : bool;
  personal : bool;
  count : nat
}.

Record StrengthResult : Type := {
  score : number;
  level : string;
  color : option string
}.

Inductive timeUnit : Type := seconds | minutes | hours | days | years.

(** The result of [formatTime]: the word [Instant], or the template
    [`${n} unit`] kept as its two parts. *)
Inductive timeText : Type :=
| Instant
| Amount (n : number) (unit : timeUnit).

Record CrackTimes : Type := {
  online : timeText;
  offline_cpu : timeText;
  offline_gpu : timeText
}.

Record Issue : Type := {
  severity : string;
  message : string
}.

(** The object [performAnalysis] returns; [displayed] is its field [score]
    (the name [score] is taken by [StrengthResult]). *)
Record AnalysisReport : Type := {
  entropy : EntropyMetrics;
  patterns : PatternFlags;
  strength : StrengthResult;
  crackTimes : CrackTimes;
  recommendations : list string;
  securityIssues : list Issue;
  displayed : number
}.

(** The fields of an instance that the analysis reads or writes (the DOM
    elements are left out). *)
Record PasswordAnalyzer : Type := {
  commonPasswords : list jsString;
  commonPatterns : CommonPatterns.t;
  lastAnalysis : option (AnalysisReport * string)
}.

(** [new PasswordAnalyzer()] *)
Definition constructor : PasswordAnalyzer := {|
  commonPasswords := map lit
    ["password"; "123456"; "123456789"; "qwerty"; "abc123"; "password123";
     "admin"; "letmein"; "welcome"; "monkey"; "1234567890"; "dragon"];
  commonPatterns := {|
    (* /qwerty|asdf|zxcv|1234|abcd/i *)
    CommonPatterns.keyboard :=
      alts (wordI "qwerty") [wordI "asdf"; wordI "zxcv"; wordI "1234"; wordI "abcd"];
    (* /(.)\1{2,}/ *)
    CommonPatterns.repeated := DotBackref 2;
    (* /(abc|bcd|...|xyz|012|123|...|789)/i *)
    CommonPatterns.sequential :=
      alts (wordI "abc")
        (map wordI
           ["bcd"; "cde"; "def"; "efg"; "fgh"; "ghi"; "hij"; "ijk"; "jkl";
            "klm"; "lmn"; "mno"; "nop"; "opq"; "pqr"; "qrs"; "rst"; "stu";
            "tuv"; "uvw"; "vwx"; "wxy"; "xyz"; "012"; "123"; "234"; "345";
            "456"; "567"; "678"; "789"]);
    (* /\b(19|20)\d{2}\b|\b(0?[1-9]|1[0-2])[\/\-](0?[1-9]|[12]\d|3[01])[\/\-](\d{2}|\d{4})\b/ *)
    CommonPatterns.date :=
      Alt (seqs [WordB; Alt (word "19") (word "20"); digit; digit; WordB])
          (seqs [WordB;
                 Alt (Seq (Opt (chr "0")) (range "1" "9"))
                     (Seq (chr "1") (range "0" "2"));
                 oneOf "/-";
                 Alt (Seq (Opt (chr "0")) (range "1" "9"))
                     (Alt (Seq (oneOf "12") digit)
                          (Seq (chr "3") (oneOf "01")));
                 oneOf "/-";
                 Alt (Seq digit digit) (seqs [digit; digit; digit; digit]);
                 WordB]);
    (* /[4@][5$][7!][3e][0o]/i *)
    CommonPatterns.leet :=
      seqs [oneOfI "4@"; oneOfI "5$"; oneOfI "7!"; oneOfI "3e"; oneOfI "0o"]
  |};
  lastAnalysis := None
|}.

(** *** Entropy *)

(** The object [freq]: the keys in insertion order with their counts.
    [Object.values] lists the counts of the digit keys first; the sum below
    is the same in either order. *)
Definition freqTable : Type := list (jsString * nat).

(** [freq[char] = (freq[char] || 0) + 1] *)
Fixpoint bump (freq : freqTable) (char : jsString) : freqTable :=
  match freq with
  | [] => [(char, 1%nat)]
  | (k, n) :: rest =>
      if Str.eqb k char then (k, S n) :: rest else (k, n) :: bump rest char
  end.

Definition calculateShannonEntropy (password : jsString) : number :=
  let freq := fold_left bump (chars password) [] in
  let entropy := Fin 0 in
  let length := ofNat (List.length password) in
  let entropy :=
    fold_left
      (fun entropy count =>
         let p := div (ofNat count) length in
         sub entropy (mul p (Math_log2 p)))
      (map snd freq) entropy in
  mul entropy length.

(** [new Set(password).size] *)
Definition setSize (password : jsString) : nat :=
  List.length (nodup (list_eq_dec N.eq_dec) (chars password)).

Definition calculateUniqueness (password : jsString) : number :=
  let unique := setSize password in
  mul (div (ofNat unique) (ofNat (List.length password))) (Fin 100).

Definition calculateEntropy (password : jsString) : EntropyMetrics :=
  let length := List.length password in
  let charset := 0%nat in
  let charset := if test (Cls isLower) password then (charset + 26)%nat else charset in
  let charset := if test (Cls isUpper) password then (charset + 26)%nat else charset in
  let charset := if test (Cls isDigit) password then (charset + 10)%nat else charset in
  let charset := if test (Cls (fun u => negb (isAlnum u))) password
                 then (charset + 32)%nat else charset in
  let shannonEntropy := calculateShannonEntropy password in
  let nistEntropy := Math_log2 (Math_pow (ofNat charset) (ofNat length)) in
  {| shannon := shannonEntropy;
     nist := nistEntropy;
     charset := charset;
     uniqueness := calculateUniqueness password |}.

(** *** Patterns *)

Definition detectPersonalInfo (password : jsString) : bool :=
  let personalPatterns :=
    [ (* /\b(john|jane|mike|sarah|david|mary|james|lisa)\b/i *)
      seqs [WordB;
            alts (wordI "john")
              (map wordI ["jane"; "mike"; "sarah"; "david"; "mary"; "james"; "lisa"]);
            WordB];
      (* /\b(admin|user|test|demo)\b/i *)
      seqs [WordB;
            alts (wordI "admin") (map wordI ["user"; "test"; "demo"]);
            WordB];
      (* /\b\d{4}\b/ *)
      seqs [WordB; digit; digit; digit; digit; WordB] ] in
  existsb (fun pattern => test pattern password) personalPatterns.

Definition detectPatterns (this : PasswordAnalyzer) (password : jsString)
  : PatternFlags :=
  let keyboard := test (CommonPatterns.keyboard (commonPatterns this)) password in
  let repeated := test (CommonPatterns.repeated (commonPatterns this)) password in
  let sequential := test (CommonPatterns.sequential (commonPatterns this)) password in
  let date := test (CommonPatterns.date (commonPatterns this)) password in
  let leet := test (CommonPatterns.leet (commonPatterns this)) password in
  let dictionary :=
    existsb (Str.eqb (toLowerCase password)) (commonPasswords this) in
  let personal := detectPersonalInfo password in
  (* Object.values(patterns).filter(Boolean).length *)
  let values := [keyboard; repeated; sequential; date; leet; dictionary; personal] in
  {| keyboard := keyboard; repeated := repeated; sequential := sequential;
     date := date; leet := leet; dictionary := dictionary; personal := personal;
     count := List.length (filter (fun b : bool => b) values) |}.

(** *** Strength *)

Local Open Scope R_scope.

Definition getStrengthLevel (score : number) : string :=
  if ge score (Fin 0.8) then "Very Strong"
  else if ge score (Fin 0.6) then "Strong"
  else if ge score (Fin 0.4) then "Moderate"
  else if ge score (Fin 0.2) then "Weak"
  else "Very Weak".

Definition getStrengthColor (level : string) : option string :=
  let colors :=
    [("Very Strong", "#2ed573"); ("Strong", "#5352ed"); ("Moderate", "#f1c40f");
     ("Weak", "#ffa502"); ("Very Weak", "#ff4757")] in
  option_map snd (find (fun kv => String.eqb (fst kv) level) colors).

Definition calculateStrength (password : jsString) (entropy : EntropyMetrics)
           (patterns : PatternFlags) : StrengthResult :=
  let score := Fin 0 in
  (* Length contribution (25%) *)
  let score :=
    add score (mul (Math_min (div (ofNat (List.length password)) (Fin 20)) (Fin 1)) (Fin 0.25)) in
  (* Entropy contribution (30%) *)
  let score :=
    add score (mul (Math_min (div (shannon entropy) (Fin 50)) (Fin 1)) (Fin 0.30)) in
  (* Character diversity (15%) *)
  let diversity := div (ofNat (charset entropy)) (Fin 94) in
  let score := add score (mul diversity (Fin 0.15)) in
  (* Uniqueness (10%) *)
  let score := add score (mul (div (uniqueness entropy) (Fin 100)) (Fin 0.10)) in
  (* NIST entropy (10%) *)
  let score :=
    add score (mul (Math_min (div (nist entropy) (Fin 60)) (Fin 1)) (Fin 0.10)) in
  (* Base score (10%) *)
  let score := add score (Fin 0.10) in
  (* Pattern penalties *)
  let patternPenalty := mul (ofNat (count patterns)) (Fin 0.08) in
  let score := Math_max (Fin 0) (sub score patternPenalty) in
  (* Common password penalty *)
  let score := if dictionary patterns then mul score (Fin 0.3) else score in
  let level := getStrengthLevel score in
  {| score := score; level := level; color := getStrengthColor level |}.

(** *** Crack times *)

Definition formatTime (seconds_ : number) : timeText :=
  if lt seconds_ (Fin 1) then Instant
  else if lt seconds_ (Fin 60) then Amount (Math_round seconds_) seconds
  else if lt seconds_ (Fin 3600) then Amount (Math_round (div seconds_ (Fin 60))) minutes
  else if lt seconds_ (Fin 86400) then Amount (Math_round (div seconds_ (Fin 3600))) hours
  else if lt seconds_ (Fin 31536000)
       then Amount (Math_round (div seconds_ (Fin 86400))) days
  else Amount (Math_round (div seconds_ (Fin 31536000))) years.

Definition estimateCrackTimes (password : jsString) (entropy : EntropyMetrics)
  : CrackTimes :=
  let guesses := Math_pow (Fin 2) (div (shannon entropy) (Fin 2)) in
  {| online := formatTime (div guesses (Fin 1000));
     offline_cpu := formatTime (div guesses (Fin 1000000));
     offline_gpu := formatTime (div guesses (Fin 1000000000)) |}.

Definition unitName (u : timeUnit) : string :=
  match u with
  | seconds => "seconds" | minutes => "minutes" | hours => "hours"
  | days => "days" | years => "years"
  end.

(** The string a [timeText] stands for, where [toString] gives the number. *)
Definition timeString (t : timeText) : option string :=
  match t with
  | Instant => Some "Instant"
  | Amount n u => option_map (fun d => d ++ " " ++ unitName u)%string (toString n)
  end.

(** *** Recommendations and issues *)

Local Open Scope nat_scope.

(** [recommendations.push(x)] under a condition. *)
Definition pushIf {A : Type} (c : bool) (x : A) (l : list A) : list A :=
  if c then l ++ [x] else l.

Definition generateRecommendations (password : jsString) (patterns : PatternFlags)
           (strength : StrengthResult) : list string :=
  let recommendations := [] in
  let recommendations :=
    pushIf (List.length password <? 12)
      "Increase password length to at least 12 characters" recommendations in
  let recommendations :=
    pushIf (negb (test (Cls isLower) password)) "Add lowercase letters" recommendations in
  let recommendations :=
    pushIf (negb (test (Cls isUpper) password)) "Add uppercase letters" recommendations in
  let recommendations :=
    pushIf (negb (test (Cls isDigit) password)) "Add numbers" recommendations in
  let recommendations :=
    pushIf (negb (test (Cls (fun u => negb (isAlnum u))) password))
      "Add special characters (!@#$%^&*)" recommendations in
  let recommendations :=
    pushIf (repeated patterns) "Avoid repeated characters" recommendations in
  let recommendations :=
    pushIf (sequential patterns) "Avoid sequential patterns" recommendations in
  let recommendations :=
    pushIf (keyboard patterns) "Avoid keyboard patterns" recommendations in
  let recommendations :=
    pushIf (dictionary patterns) "Avoid common dictionary words" recommendations in
  let recommendations :=
    pushIf (date patterns) "Avoid dates and years" recommendations in
  let recommendations :=
    pushIf (List.length recommendations =? 0)
      "Excellent password! Consider using a password manager" recommendations in
  recommendations.

Definition identifySecurityIssues (password : jsString) (patterns : PatternFlags)
  : list Issue :=
  let issues := [] in
  let issues :=
    pushIf (dictionary patterns)
      {| severity := "high"; message := "Password found in common password lists" |}
      issues in
  let issues :=
    pushIf (List.length password <? 8)
      {| severity := "high";
         message := "Password is too short (less than 8 characters)" |} issues in
  let issues :=
    pushIf (repeated patterns)
      {| severity := "medium"; message := "Contains repeated character sequences" |}
      issues in
  let issues :=
    pushIf (keyboard patterns)
      {| severity := "medium"; message := "Contains keyboard patterns" |} issues in
  let issues :=
    pushIf (personal patterns)
      {| severity := "medium"; message := "May contain personal information" |}
      issues in
  let issues :=
    pushIf (negb (test (Cls (fun u => negb (isAlnum u))) password))
      {| severity := "low"; message := "No special characters used" |} issues in
  issues.

(** *** The analysis *)

Definition performAnalysis (this : PasswordAnalyzer) (password : jsString)
  : AnalysisReport :=
  let entropy := calculateEntropy password in
  let patterns := detectPatterns this password in
  let strength := calculateStrength password entropy patterns in
  let crackTimes := estimateCrackTimes password entropy in
  let recommendations := generateRecommendations password patterns strength in
  let securityIssues := identifySecurityIssues password patterns in
  {| entropy := entropy;
     patterns := patterns;
     strength := strength;
     crackTimes := crackTimes;
     recommendations := recommendations;
     securityIssues := securityIssues;
     displayed := Math_round (mul (score strength) (Fin 100)) |}.

(** [displayResults], as far as the instance is concerned: the report is
    stored for export with the password hidden. *)
Definition displayResults (this : PasswordAnalyzer) (analysis : AnalysisReport)
           (password : jsString) : PasswordAnalyzer :=
  {| commonPasswords := commonPasswords this;
     commonPatterns := commonPatterns this;
     lastAnalysis := Some (analysis, "***hidden***"%string) |}.

(** What [analyzePassword] does with the content of the input field. *)
Inductive outcome : Type :=
| Alert (text : string)
| Shown (analysis : AnalysisReport).

(** [analyzePassword], with the value of the input field as an argument:
    the instance afterwards and what the user gets. *)
Definition analyzePassword (this : PasswordAnalyzer) (value : jsString)
  : PasswordAnalyzer * outcome :=
  let password := trim value in
  match password with
  | [] => (this, Alert "Please enter a password to analyze")
  | _ :: _ =>
      let analysis := performAnalysis this password in
      (displayResults this analysis password, Shown analysis)
  end.

(** A history of the instance: the input values analysed so far. *)
Definition run (this : PasswordAnalyzer) (values : list jsString) : PasswordAnalyzer :=
  fold_left (fun this value => fst (analyzePassword this value)) values this.

(** *** Export *)

(** The object [exportResults] serialises, without its time stamp. *)
Record ExportData : Type := {
  exportedAnalysis : AnalysisReport;
  exportedPassword : string
}.

Inductive exportOutcome : Type :=
| ExportAlert (text : string)
| Exported (data : ExportData).

(** [exportResults], up to the file download: what is put in the file. *)
Definition exportResults (this : PasswordAnalyzer) : exportOutcome :=
  match lastAnalysis this with
  | None => ExportAlert "No analysis results to export"
  | Some (analysis, password) =>
      Exported {| exportedAnalysis := analysis; exportedPassword := password |}
  end.

(** *** The generators *)

Local Open Scope list_scope.
Local Open Scope R_scope.

Definition Math_floor (x : number) : number :=
  match x with
  | Fin r => ofZ (floor r)
  | _ => x
  end.

(** [x || d] on numbers: [d] when [x] is [NaN] or zero. *)
Definition orElse (x d : number) : number :=
  match x with
  | NaN => d
  | Fin r => if Req_dec_T r 0 then d else x
  | _ => x
  end.

(** ToIntegerOrInfinity, the infinities apart. *)
Definition toInteger (x : number) : option Z :=
  match x with
  | NaN => Some 0%Z
  | Fin r => Some (if Rlt_dec r 0 then (- floor (- r))%Z else floor r)
  | _ => None
  end.

(** [s.charAt(pos)]: the empty string out of range. *)
Definition charAt (s : jsString) (pos : number) : jsString :=
  match toInteger pos with
  | Some z =>
      if (0 <=? z)%Z
      then match nth_error s (Z.to_nat z) with
           | Some u => [u]
           | None => []
           end
      else []
  | None => []
  end.

(** [a[i]] on an array: [undefined] unless [i] is an index of [a]. *)
Definition index {A : Type} (a : list A) (i : number) : option A :=
  match i with
  | Fin r => if isInteger r && (0 <=? floor r)%Z
             then nth_error a (Z.to_nat (floor r))
             else None
  | _ => None
  end.

(** [toUpperCase] on the letters [a-z]; the generator applies it to the
    first letter of its words only. *)
Definition upperUnit (u : codeUnit) : codeUnit :=
  if isLower u then (u - 32)%N else u.

Definition toUpperCase (s : jsString) : jsString := map upperUnit s.

(** [a.join(sep)] *)
Fixpoint join (sep : jsString) (a : list jsString) : jsString :=
  match a with
  | [] => []
  | [x] => x
  | x :: rest => x ++ sep ++ join sep rest
  end.

Definition passwordChars : jsString :=
  lit "ABCDEFGHIJKLMNOPQRSTUVWXYZabcdefghijklmnopqrstuvwxyz0123456789!@#$%^&*()_+-=[]{}|;:,.<>?".

(** The loop [for (let i = 0; i < len; i++) password += chars.charAt(...)].
    [random i] is the result of the call of [Math.random()] in round [i].
    The loop ends by its test; [fuel] only bounds the recursion. *)
Fixpoint passwordLoop (fuel i : nat) (len : number) (random : nat -> R)
         (chars password : jsString) : jsString :=
  match fuel with
  | O => password
  | S fuel' =>
      if lt (ofNat i) len
      then passwordLoop fuel' (S i) len random chars
             (password
              ++ charAt chars (Math_floor (mul (Fin (random i))
                                               (ofNat (List.length chars)))))
      else password
  end.

(** [generatePassword]: the value it puts in the input field.  [parsed] is
    what [parseInt] made of the answer to the prompt.  As [len] is at most
    128, a fuel of 129 is never used up. *)
Definition generatePassword (parsed : number) (random : nat -> R) : jsString :=
  let len := Math_max (Fin 8) (Math_min (Fin 128) (orElse parsed (Fin 16))) in
  let chars := passwordChars in
  let password := [] in
  passwordLoop 129 0 len random chars password.

Definition passphraseWords : list jsString :=
  map lit
    ["correct"; "horse"; "battery"; "staple"; "mountain"; "river"; "ocean";
     "forest"; "sunrise"; "moonlight"; "thunder"; "whisper"; "journey";
     "adventure"; "mystery"; "dragon"; "phoenix"; "crystal"; "shadow";
     "lightning"; "cascade"; "meadow"]%string.

(** The loop that draws the words; [None] when [words[...]] is [undefined],
    on which [word.charAt] throws. *)
Fixpoint wordLoop (fuel i : nat) (count : number) (random : nat -> R)
         (words selectedWords : list jsString) : option (list jsString * nat) :=
  match fuel with
  | O => Some (selectedWords, i)
  | S fuel' =>
      if lt (ofNat i) count
      then match index words (Math_floor (mul (Fin (random i))
                                              (ofNat (List.length words)))) with
           | Some word =>
               wordLoop fuel' (S i) count random words
                 (selectedWords
                  ++ [toUpperCase (charAt word (Fin 0)) ++ tl word])
           | None => None
           end
      else Some (selectedWords, i)
  end.

(** [generatePassphrase]: the value it puts in the input field; the call of
    [Math.random()] after the loop is the one of round [count].  [None]
    stands for an exception or for a number that [toString] does not give. *)
Definition generatePassphrase (parsed : number) (random : nat -> R)
  : option jsString :=
  let words := passphraseWords in
  let wordCount := orElse parsed (Fin 5) in
  let count := Math_max (Fin 3) (Math_min (Fin 8) wordCount) in
  match wordLoop 9 0 count random words [] with
  | Some (selectedWords, i) =>
      match toString (Math_floor (mul (Fin (random i)) (Fin 100))) with
      | Some digits => Some (join (lit "-") selectedWords ++ lit digits)
      | None => None
      end
  | None => None
  end.

Local Open Scope nat_scope.

(** The sum of a list of reals. *)
Definition Rsum (l : list R) : R := fold_right Rplus 0%R l.

(** What a character that occurs [n] times in a password of length [len]
    adds to the Shannon entropy: [n * log2 (len / n)]. *)
Definition bits (len : R) (n : nat) : R := (INR n * (log2 len - log2 (INR n)))%R.

(** A password of 200 characters with all four classes. *)
Definition longPassword : jsString := List.concat (repeat (lit "aB3$") 50).

(** A password of 384 characters: 64 different characters, six times over. *)
Definition veryLongPassword : jsString :=
  List.concat
    (repeat (lit "ABCDEFGHIJKLMNOPQRSTUVWXYZabcdefghijklmnopqrstuvwxyz0123456789!@") 6).

(** The one-character password U+1F600 (a grinning face), in UTF-16 the
    surrogate pair D83D DE00. *)
Definition grinningFace : jsString := [55357%N; 56832%N].

(** ** The specification's words *)

Definition isFinite (x : number) : Prop :=
  match x with Fin _ => True | _ => False end.

(** The number of true pattern flags. *)
Definition trueFlags (f : PatternFlags) : nat :=
  Nat.b2n (keyboard f) + Nat.b2n (repeated f) + Nat.b2n (sequential f)
  + Nat.b2n (date f) + Nat.b2n (leet f) + Nat.b2n (dictionary f)
  + Nat.b2n (personal f).

Local Open Scope R_scope.

(** The score of section 4.3: the subtotal of six terms, the pattern
    penalty, the dictionary factor. *)
Definition specSubtotal (len : nat) (e : EntropyMetrics) : number :=
  add (add (add (add (add
    (mul (Math_min (div (ofNat len) (Fin 20)) (Fin 1)) (Fin 0.25))
    (mul (Math_min (div (shannon e) (Fin 50)) (Fin 1)) (Fin 0.30)))
    (mul (div (ofNat (charset e)) (Fin 94)) (Fin 0.15)))
    (mul (div (uniqueness e) (Fin 100)) (Fin 0.10)))
    (mul (Math_min (div (nist e) (Fin 60)) (Fin 1)) (Fin 0.10)))
    (Fin 0.10).

Definition specScore (len : nat) (e : EntropyMetrics) (f : PatternFlags) : number :=
  let S := specSubtotal len e in
  let S' := Math_max (Fin 0) (sub S (mul (ofNat (trueFlags f)) (Fin 0.08))) in
  if dictionary f then mul S' (Fin 0.3) else S'.

(** The time table of section 4.4, on a finite number of seconds. *)
Definition specFormat (s : R) : timeText :=
  if Rlt_dec s 1 then Instant
  else if Rlt_dec s 60 then Amount (ofZ (roundZ s)) seconds
  else if Rlt_dec s 3600 then Amount (ofZ (roundZ (s / 60))) minutes
  else if Rlt_dec s 86400 then Amount (ofZ (roundZ (s / 3600))) hours
  else if Rlt_dec s 31536000 then Amount (ofZ (roundZ (s / 86400))) days
  else Amount (ofZ (roundZ (s / 31536000))) years.

Local Open Scope nat_scope.

(** The advice of section 4.5 as a priority list: each message with the
    condition that triggers it, in the order of the code. *)
Definition adviceTable (password : jsString) (f : PatternFlags) : list (bool * string) :=
  [ (List.length password <? 12, "Increase password length to at least 12 characters");
    (negb (existsb isLower password), "Add lowercase letters");
    (negb (existsb isUpper password), "Add uppercase letters");
    (negb (existsb isDigit password), "Add numbers");
    (negb (existsb (fun u => negb (isAlnum u)) password),
     "Add special characters (!@#$%^&*)");
    (repeated f, "Avoid repeated characters");
    (sequential f, "Avoid sequential patterns");
    (keyboard f, "Avoid keyboard patterns");
    (dictionary f, "Avoid common dictionary words");
    (date f, "Avoid dates and years") ].

Definition triggered (t : list (bool * string)) : list string :=
  map snd (filter fst t).

Definition goodPassword : string :=
  "Excellent password! Consider using a password manager".

(** *** Meaning of the regular expressions *)

Local Open Scope list_scope.

(** The code unit before the position reached after [w]. *)
Definition lastUnit (prev : option codeUnit) (w : jsString) : option codeUnit :=
  fold_left (fun _ u => Some u) w prev.

(** [den r prev w rest]: [r] matches the word [w], with [prev] before it and
    [rest] after it. *)
Fixpoint den (r : regex) (prev : option codeUnit) (w rest : jsString) : Prop :=
  match r with
  | Cls f => exists u, w = [u] /\ f u = true
  | Eps => w = []
  | Seq r1 r2 =>
      exists w1 w2, w = w1 ++ w2 /\ den r1 prev w1 (w2 ++ rest)
                    /\ den r2 (lastUnit prev w1) w2 rest
  | Alt r1 r2 => den r1 prev w rest \/ den r2 prev w rest
  | WordB => w = [] /\ xorb (isWordAt prev) (isWordAt (hd_error rest)) = true
  | DotBackref n =>
      exists a m, n <= m /\ w = a :: repeat a m /\ isLineTerminator a = false
  end.

(** *** Dates *)

Module DateSpec.

Local Open Scope N_scope.

Definition isSep (u : codeUnit) : bool := (u =? 47) || (u =? 45).   (* / - *)

Definition allDigits (w : jsString) : bool := forallb isDigit w.

(** The number a string of decimal digits writes. *)
Definition value (w : jsString) : N :=
  fold_left (fun acc u => 10 * acc + (u - 48)) w 0.

(** Delimited by word boundaries: no word character right before or after. *)
Definition standalone (pre post : jsString) : Prop :=
  isWordAt (lastUnit None pre) = false /\ isWordAt (hd_error post) = false.

Definition isYear19or20 (y : jsString) : Prop :=
  List.length y = 4%nat /\ allDigits y = true /\ 1900 <= value y <= 2099.

Definition isMonth (m : jsString) : Prop :=
  (1 <= List.length m <= 2)%nat /\ allDigits m = true /\ 1 <= value m <= 12.

Definition isDay (d : jsString) : Prop :=
  (1 <= List.length d <= 2)%nat /\ allDigits d = true /\ 1 <= value d <= 31.

Definition isShortOrLongYear (y : jsString) : Prop :=
  (List.length y = 2%nat \/ List.length y = 4%nat) /\ allDigits y = true.

Definition hasYear (p : jsString) : Prop :=
  exists pre y post, p = pre ++ y ++ post /\ isYear19or20 y /\ standalone pre post.

(** day, separator, month, separator, year *)
Definition hasDMY (p : jsString) : Prop :=
  exists pre d s1 m s2 y post,
    p = pre ++ d ++ [s1] ++ m ++ [s2] ++ y ++ post
    /\ isDay d /\ isSep s1 = true /\ isMonth m /\ isSep s2 = true
    /\ isShortOrLongYear y /\ standalone pre post.

(** month, separator, day, separator, year *)
Definition hasMDY (p : jsString) : Prop :=
  exists pre m s1 d s2 y post,
    p = pre ++ m ++ [s1] ++ d ++ [s2] ++ y ++ post
    /\ isMonth m /\ isSep s1 = true /\ isDay d /\ isSep s2 = true
    /\ isShortOrLongYear y /\ standalone pre post.

(** The parts of the date pattern of the class. *)
Definition centuryRe : regex := Alt (word "19") (word "20").       (* (19|20) *)
Definition monthRe : regex :=                                      (* (0?[1-9]|1[0-2]) *)
  Alt (Seq (Opt (chr "0")) (range "1" "9")) (Seq (chr "1") (range "0" "2")).
Definition sepRe : regex := oneOf "/-".                            (* [\/\-] *)
Definition dayRe : regex :=                                 (* (0?[1-9]|[12]\d|3[01]) *)
  Alt (Seq (Opt (chr "0")) (range "1" "9"))
      (Alt (Seq (oneOf "12") digit) (Seq (chr "3") (oneOf "01"))).
Definition yearRe : regex :=                                       (* (\d{2}|\d{4}) *)
  Alt (Seq digit digit) (seqs [digit; digit; digit; digit]).

End DateSpec.

(** *** Shannon entropy on the reals *)

Local Open Scope R_scope.

(** The loop of [calculateShannonEntropy] on reals: [len] is the length of
    the password, [counts] the values of [freq]. *)
Definition entropyLoop (len : R) (counts : list nat) (entropy : R) : R :=
  fold_left (fun entropy count =>
               let p := INR count / len in entropy - p * log2 p)
            counts entropy.

Definition shannonR (password : jsString) : R :=
  entropyLoop (INR (List.length password))
              (map snd (fold_left bump (chars password) [])) 0
  * INR (List.length password).

(** *** Further notions used by the properties *)

(** The NIST term of the score before its weight: [min(nist / 60, 1)]. *)
Definition nistTerm (x : number) : R :=
  match x with
  | PInf => 1
  | Fin v => Rmin (v / 60) 1
  | _ => 0
  end.

(** The score on real metrics. *)
Definition scoreR (len : nat) (h : R) (c : nat) (u t : R) (cnt : nat) (dict : bool) : R :=
  let S := 0 + Rmin (INR len / 20) 1 * 0.25 + Rmin (h / 50) 1 * 0.30
           + INR c / 94 * 0.15 + u / 100 * 0.10 + t * 0.10 + 0.10 in
  let S' := Rmax 0 (S - INR cnt * 0.08) in
  if dict then S' * 0.3 else S'.

Definition severityRank (s : string) : nat :=
  if String.eqb s "high" then 3%nat
  else if String.eqb s "medium" then 2%nat
  else if String.eqb s "low" then 1%nat
  else 0%nat.

Fixpoint nonIncreasing (l : list nat) : bool :=
  match l with
  | a :: t => match t with
              | b :: _ => (b <=? a)%nat && nonIncreasing t
              | [] => true
              end
  | [] => true
  end.

(** The last input value of a history that is not empty once trimmed. *)
Definition lastAccepted (values : list jsString) : option jsString :=
  fold_left (fun acc value => match trim value with
                              | [] => acc
                              | _ :: _ => Some value
                              end) values None.

(** A pattern whose character classes do not tell a letter [a-z] from its
    upper case. *)
Fixpoint caseBlind (r : regex) : Prop :=
  match r with
  | Cls f => forall u, f (canonicalize u) = f u
  | Eps => True
  | Seq r1 r2 => caseBlind r1 /\ caseBlind r2
  | Alt r1 r2 => caseBlind r1 /\ caseBlind r2
  | WordB => True
  | DotBackref _ => False
  end.

(** Whether a list of messages has a given one. *)
Definition hasMessage (m : string) (l : list string) : bool :=
  existsb (String.eqb m) l.

(** A word as the passphrase generator writes it: an upper-case letter,
    then at least four more characters, the first of them a lower-case
    letter, and no white space. *)
Definition capitalized (w : jsString) : Prop :=
  exists u v t,
    w = u :: v :: t /\ isUpper u = true /\ isLower v = true
    /\ (3 <= List.length t)%nat
    /\ forallb (fun c => negb (isWhiteSpace c)) w = true.

(** * Properties *)

(** ** Numbers *)

Section NumberFacts.

Local Open Scope R_scope.

Lemma add_0_l (x : number) : add (Fin 0) x = x.
Proof. destruct x; simpl; try reflexivity. now rewrite Rplus_0_l. Qed.

Lemma div_fin (a b : R) : b <> 0 -> div (Fin a) (Fin b) = Fin (a / b).
Proof. intros Hb. simpl. destruct (Req_dec_T b 0); [contradiction | reflexivity]. Qed.

Lemma div_pinf (b : R) : 0 < b -> div PInf (Fin b) = PInf.
Proof. intros Hb. simpl. destruct (Rlt_dec b 0); [lra | reflexivity]. Qed.

Lemma log2_fin (r : R) : 0 < r -> Math_log2 (Fin r) = Fin (log2 r).
Proof.
  intros Hr. simpl.
  destruct (Rlt_dec r 0); [lra |].
  destruct (Req_dec_T r 0); [lra | reflexivity].
Qed.

Lemma lt_fin (a b : R) : lt (Fin a) (Fin b) = true <-> a < b.
Proof. simpl. destruct (Rlt_dec a b); split; intros; try easy. Qed.

Lemma lt_fin_false (a b : R) : lt (Fin a) (Fin b) = false <-> b <= a.
Proof.
  simpl. destruct (Rlt_dec a b); split; intros; try easy; lra.
Qed.

Lemma ln2_pos : 0 < ln 2.
Proof. rewrite <- ln_1. apply ln_increasing; lra. Qed.

Lemma log2_1 : log2 1 = 0.
Proof. unfold log2. rewrite ln_1. unfold Rdiv. apply Rmult_0_l. Qed.

Lemma log2_le (a b : R) : 0 < a -> a <= b -> log2 a <= log2 b.
Proof.
  intros Ha Hab. unfold log2, Rdiv.
  apply Rmult_le_compat_r.
  - left. apply Rinv_0_lt_compat, ln2_pos.
  - destruct Hab as [Hlt | ->]; [left; now apply ln_increasing | right; reflexivity].
Qed.

Lemma log2_nonneg (a : R) : 1 <= a -> 0 <= log2 a.
Proof. intros Ha. rewrite <- log2_1. apply log2_le; lra. Qed.

Lemma log2_pos (a : R) : 1 < a -> 0 < log2 a.
Proof.
  intros Ha. unfold log2, Rdiv. apply Rmult_lt_0_compat.
  - rewrite <- ln_1. apply ln_increasing; lra.
  - apply Rinv_0_lt_compat, ln2_pos.
Qed.

(** [floor] is the integer part. *)
Lemma floor_spec (r : R) : IZR (floor r) <= r < IZR (floor r) + 1.
Proof.
  unfold floor. destruct (base_Int_part r) as [H1 H2]. lra.
Qed.

Lemma floor_unique (r : R) (z : Z) : IZR z <= r < IZR z + 1 -> floor r = z.
Proof.
  intros [H1 H2]. destruct (floor_spec r) as [H3 H4].
  assert (A : (floor r < z + 1)%Z).
  { apply lt_IZR. rewrite plus_IZR. lra. }
  assert (B : (z < floor r + 1)%Z).
  { apply lt_IZR. rewrite plus_IZR. lra. }
  lia.
Qed.

Lemma floor_IZR (z : Z) : floor (IZR z) = z.
Proof. apply floor_unique. lra. Qed.

Lemma floor_bounds (r : R) (a b : Z) :
  IZR a <= r -> r < IZR b + 1 -> (a <= floor r <= b)%Z.
Proof.
  intros Ha Hb. destruct (floor_spec r) as [H1 H2]. split.
  - assert (A : (a < floor r + 1)%Z) by (apply lt_IZR; rewrite plus_IZR; lra). lia.
  - assert (B : (floor r < b + 1)%Z) by (apply lt_IZR; rewrite plus_IZR; lra). lia.
Qed.

(** [roundZ] is a nearest integer, the upper one at a tie. *)
Lemma roundZ_nearest (r : R) : IZR (roundZ r) - / 2 <= r < IZR (roundZ r) + / 2.
Proof. unfold roundZ. destruct (floor_spec (r + / 2)). lra. Qed.

Lemma roundZ_unique (r : R) (z : Z) : IZR z - / 2 <= r < IZR z + / 2 -> roundZ r = z.
Proof. intros H. unfold roundZ. apply floor_unique. lra. Qed.

Lemma isInteger_IZR (z : Z) : isInteger (IZR z) = true.
Proof.
  unfold isInteger. rewrite floor_IZR.
  destruct (Req_dec_T (IZR z) (IZR z)); [reflexivity | contradiction].
Qed.

End NumberFacts.

(** ** Strings and character classes *)

Section StringFacts.

(** Induction along the iteration of a string. *)
Lemma chars_ind (P : jsString -> Prop) :
  P [] ->
  (forall h, P [h]) ->
  (forall h l t, isHighSurrogate h && isLowSurrogate l = true ->
                 P t -> P (h :: l :: t)) ->
  (forall h l t, isHighSurrogate h && isLowSurrogate l = false ->
                 P (l :: t) -> P (h :: l :: t)) ->
  forall s, P s.
Proof.
  intros H0 H1 Hpair Hsingle s.
  assert (A : P s /\ forall u, P (u :: s)).
  { induction s as [| l t [IHt IHc]].
    - split; [exact H0 | exact H1].
    - split; [apply IHc |].
      intros u. destruct (isHighSurrogate u && isLowSurrogate l) eqn:E.
      + now apply Hpair.
      + apply Hsingle; [exact E | apply IHc]. }
  exact (proj1 A).
Qed.

Lemma chars_length (s : jsString) : (List.length (chars s) <= List.length s)%nat.
Proof.
  induction s as [| h | h l t E IH | h l t E IH] using chars_ind.
  - simpl. lia.
  - simpl. lia.
  - cbn [chars]. rewrite E. simpl. lia.
  - cbn [chars]. rewrite E. simpl in *. lia.
Qed.

Lemma chars_nonempty (s : jsString) : s <> [] -> chars s <> [].
Proof.
  destruct s as [| h [| l t]]; [congruence | simpl; congruence |].
  intros _. cbn [chars]. destruct (isHighSurrogate h && isLowSurrogate l); congruence.
Qed.

Lemma nodup_length {A : Type} (dec : forall a b : A, {a = b} + {a <> b}) (l : list A) :
  (List.length (nodup dec l) <= List.length l)%nat.
Proof.
  induction l as [| a l IH]; simpl; [lia |].
  destruct (in_dec dec a l); simpl; lia.
Qed.

Lemma setSize_le (s : jsString) : (setSize s <= List.length s)%nat.
Proof.
  unfold setSize.
  eapply Nat.le_trans; [apply nodup_length | apply chars_length].
Qed.

Lemma setSize_pos (s : jsString) : s <> [] -> (1 <= setSize s)%nat.
Proof.
  intros Hs. unfold setSize.
  pose proof (chars_nonempty s Hs) as Hc.
  destruct (chars s) as [| c cs] eqn:E; [congruence |].
  assert (Hin : In c (nodup (list_eq_dec N.eq_dec) (c :: cs))).
  { apply nodup_In. now left. }
  destruct (nodup (list_eq_dec N.eq_dec) (c :: cs)); [destruct Hin | simpl; lia].
Qed.

(** A pattern that is one character class finds a code unit of the class. *)
Lemma searchFrom_Cls (f : codeUnit -> bool) (prev : option codeUnit) (s : jsString) :
  searchFrom (Cls f) prev s = existsb f s.
Proof.
  revert prev. induction s as [| u t IH]; intros prev; simpl; [reflexivity |].
  rewrite IH. now rewrite andb_true_r.
Qed.

Lemma test_Cls (f : codeUnit -> bool) (s : jsString) : test (Cls f) s = existsb f s.
Proof. apply searchFrom_Cls. Qed.

Lemma class_cover (u : codeUnit) :
  isLower u || isUpper u || isDigit u || negb (isAlnum u) = true.
Proof. unfold isAlnum. destruct (isLower u), (isUpper u), (isDigit u); reflexivity. Qed.

End StringFacts.

(** ** The instance and its history *)

Section Instance.

Lemma performAnalysis_fields (this this' : PasswordAnalyzer) (password : jsString) :
  commonPasswords this = commonPasswords this' ->
  commonPatterns this = commonPatterns this' ->
  performAnalysis this password = performAnalysis this' password.
Proof.
  intros Hw Hp. unfold performAnalysis, detectPatterns. now rewrite Hw, Hp.
Qed.

Lemma analyzePassword_fields (this : PasswordAnalyzer) (value : jsString) :
  commonPasswords (fst (analyzePassword this value)) = commonPasswords this
  /\ commonPatterns (fst (analyzePassword this value)) = commonPatterns this.
Proof.
  unfold analyzePassword. destruct (trim value); simpl; split; reflexivity.
Qed.

Lemma run_fields (values : list jsString) (this : PasswordAnalyzer) :
  commonPasswords (run this values) = commonPasswords this
  /\ commonPatterns (run this values) = commonPatterns this.
Proof.
  revert this. induction values as [| v vs IH]; intros this; [split; reflexivity |].
  unfold run in *. simpl. destruct (IH (fst (analyzePassword this v))) as [H1 H2].
  destruct (analyzePassword_fields this v) as [H3 H4].
  split; congruence.
Qed.

Lemma analyzePassword_outcome (this : PasswordAnalyzer) (value : jsString) :
  snd (analyzePassword this value)
  = match trim value with
    | [] => Alert "Please enter a password to analyze"
    | _ :: _ => Shown (performAnalysis this (trim value))
    end.
Proof. unfold analyzePassword. destruct (trim value); reflexivity. Qed.

End Instance.

(** ** Pattern flags and the score *)

Section Score.

Lemma detectPatterns_count (this : PasswordAnalyzer) (password : jsString) :
  count (detectPatterns this password) = trueFlags (detectPatterns this password).
Proof.
  unfold detectPatterns, trueFlags. cbn [count keyboard repeated sequential date leet
    dictionary personal].
  generalize (test (CommonPatterns.keyboard (commonPatterns this)) password)
             (test (CommonPatterns.repeated (commonPatterns this)) password)
             (test (CommonPatterns.sequential (commonPatterns this)) password)
             (test (CommonPatterns.date (commonPatterns this)) password)
             (test (CommonPatterns.leet (commonPatterns this)) password)
             (existsb (Str.eqb (toLowerCase password)) (commonPasswords this))
             (detectPersonalInfo password).
  intros [] [] [] [] [] [] []; reflexivity.
Qed.

Lemma trueFlags_le (f : PatternFlags) : (trueFlags f <= 7)%nat.
Proof.
  unfold trueFlags.
  destruct (keyboard f), (repeated f), (sequential f), (date f), (leet f),
    (dictionary f), (personal f); simpl; lia.
Qed.

(** C2: the score of a report is the subtotal of the six weighted terms,
    less 0.08 for each true pattern flag and not below 0, times 0.3 when the
    dictionary flag is set; the count of the report is the number of true
    flags among the seven. *)
Theorem score_is_weighted_sum (this : PasswordAnalyzer) (password : jsString) :
  let r := performAnalysis this password in
  score (strength r) = specScore (List.length password) (entropy r) (patterns r)
  /\ count (patterns r) = trueFlags (patterns r).
Proof.
  cbn zeta. split; [| apply detectPatterns_count].
  unfold performAnalysis. cbn [strength entropy patterns].
  unfold calculateStrength, specScore, specSubtotal. cbn [score].
  rewrite add_0_l, detectPatterns_count. reflexivity.
Qed.

End Score.

(** ** Recommendations *)

Section Recommendations.

(** C5, as the code has it: the advice is the triggered part of the
    priority list (length, the four missing classes, then the flags
    repeated, sequential, keyboard, dictionary, date), in that order; the
    flags leet and personal have no advice; without any advice the list is
    the single good-password message. *)
Theorem recommendations_priority (password : jsString) (f : PatternFlags)
        (s : StrengthResult) :
  generateRecommendations password f s
  = match triggered (adviceTable password f) with
    | [] => [goodPassword]
    | advice => advice
    end.
Proof.
  unfold generateRecommendations, adviceTable, triggered, goodPassword.
  rewrite !test_Cls.
  destruct (List.length password <? 12)%nat, (existsb isLower password),
    (existsb isUpper password), (existsb isDigit password),
    (existsb (fun u => negb (isAlnum u)) password),
    (repeated f), (sequential f), (keyboard f), (dictionary f), (date f);
    reflexivity.
Qed.

(** C5, as the claim has it, fails: a password whose only true flag is
    [personal] gets no avoidance advice, only the good-password message. *)
Lemma recommendations_skip_personal :
  personal (patterns (performAnalysis constructor (lit "Xy!john!Zq7#Kw"))) = true
  /\ trueFlags (patterns (performAnalysis constructor (lit "Xy!john!Zq7#Kw"))) = 1%nat
  /\ recommendations (performAnalysis constructor (lit "Xy!john!Zq7#Kw"))
     = [goodPassword].
Proof. repeat split; vm_compute; reflexivity. Qed.

End Recommendations.

(** ** Determinism *)

Section Determinism.

(** C7: what the user gets from [analyzePassword] depends on the input
    value alone, not on what the instance analysed before: after any two
    histories the same input gives the same report (entropy metrics, flags,
    score, level, crack times, recommendations and issues). *)
Theorem analyze_deterministic (h1 h2 : list jsString) (value : jsString) :
  snd (analyzePassword (run constructor h1) value)
  = snd (analyzePassword (run constructor h2) value).
Proof.
  rewrite !analyzePassword_outcome.
  destruct (trim value) as [| u t]; [reflexivity |].
  f_equal. destruct (run_fields h1 constructor) as [A1 B1].
  destruct (run_fields h2 constructor) as [A2 B2].
  apply performAnalysis_fields; congruence.
Qed.

End Determinism.

(** ** Entropy metrics *)

Section Metrics.

Local Open Scope R_scope.

Lemma bump_positive (freq : freqTable) (char : jsString) :
  Forall (fun n => (0 < n)%nat) (map snd freq) ->
  Forall (fun n => (0 < n)%nat) (map snd (bump freq char)).
Proof.
  induction freq as [| [k n] rest IH]; intros H; simpl.
  - constructor; [lia | constructor].
  - inversion H as [| ? ? Hn Hrest]; subst.
    destruct (Str.eqb k char); simpl; constructor; auto; lia.
Qed.

Lemma freq_positive (cs : list jsString) (freq : freqTable) :
  Forall (fun n => (0 < n)%nat) (map snd freq) ->
  Forall (fun n => (0 < n)%nat) (map snd (fold_left bump cs freq)).
Proof.
  revert freq. induction cs as [| c cs IH]; intros freq H; simpl; [exact H |].
  apply IH, bump_positive, H.
Qed.

(** The loop of [calculateShannonEntropy] stays on finite numbers. *)
Lemma entropy_loop_finite (len : R) (counts : list nat) (e : R) :
  0 < len ->
  Forall (fun n => (0 < n)%nat) counts ->
  fold_left (fun entropy count =>
               let p := div (ofNat count) (Fin len) in
               sub entropy (mul p (Math_log2 p)))
            counts (Fin e)
  = Fin (entropyLoop len counts e).
Proof.
  intros Hlen. revert e. induction counts as [| c cs IH]; intros e H; [reflexivity |].
  inversion H as [| ? ? Hc Hcs]; subst. unfold entropyLoop. cbn [fold_left]. cbn zeta.
  unfold ofNat. rewrite div_fin by lra.
  assert (Hp : 0 < INR c / len).
  { apply Rdiv_lt_0_compat; [| exact Hlen]. now apply lt_0_INR. }
  rewrite log2_fin by exact Hp. simpl mul. simpl sub.
  rewrite IH by exact Hcs. reflexivity.
Qed.

Lemma length_pos (s : jsString) : s <> [] -> 0 < INR (List.length s).
Proof. intros Hs. apply lt_0_INR. destruct s; [congruence | simpl; lia]. Qed.

Lemma shannon_finite (password : jsString) :
  password <> [] -> calculateShannonEntropy password = Fin (shannonR password).
Proof.
  intros Hp. unfold calculateShannonEntropy, shannonR, ofNat.
  rewrite entropy_loop_finite.
  - reflexivity.
  - now apply length_pos.
  - apply freq_positive. constructor.
Qed.

Lemma uniqueness_finite (password : jsString) :
  password <> [] ->
  calculateUniqueness password
  = Fin (INR (setSize password) / INR (List.length password) * 100).
Proof.
  intros Hp. unfold calculateUniqueness, ofNat.
  rewrite div_fin; [reflexivity |].
  pose proof (length_pos password Hp). lra.
Qed.

Lemma uniqueness_range (password : jsString) :
  password <> [] ->
  0 < INR (setSize password) / INR (List.length password) * 100 <= 100.
Proof.
  intros Hp. pose proof (length_pos password Hp) as HL.
  pose proof (setSize_le password) as Hle. apply le_INR in Hle.
  pose proof (setSize_pos password Hp) as Hpos. apply le_INR in Hpos. simpl in Hpos.
  split.
  - apply Rmult_lt_0_compat; [| lra]. apply Rdiv_lt_0_compat; lra.
  - assert (INR (setSize password) / INR (List.length password) <= 1).
    { apply Rmult_le_reg_r with (INR (List.length password)); [exact HL |].
      unfold Rdiv. rewrite Rmult_assoc, Rinv_l by lra. lra. }
    lra.
Qed.

Lemma charset_range (password : jsString) :
  password <> [] ->
  (10 <= charset (calculateEntropy password) <= 94)%nat.
Proof.
  intros Hp. unfold calculateEntropy. cbn [charset]. rewrite !test_Cls.
  destruct password as [| u t]; [congruence |]. simpl existsb.
  pose proof (class_cover u) as Hu.
  destruct (isLower u), (isUpper u), (isDigit u), (negb (isAlnum u));
    try discriminate Hu; simpl;
    repeat match goal with |- context [if ?b then _ else _] => destruct b end; lia.
Qed.

Lemma charset_le (password : jsString) :
  (charset (calculateEntropy password) <= 94)%nat.
Proof.
  unfold calculateEntropy. cbn [charset].
  repeat match goal with |- context [if ?b then _ else _] => destruct b end; lia.
Qed.

(** [Math.pow] of two positive integers. *)
Lemma pow_naturals (c n : nat) :
  (0 < c)%nat -> (0 < n)%nat ->
  Math_pow (ofNat c) (ofNat n) = overflow (INR c ^ n).
Proof.
  intros Hc Hn. unfold Math_pow, ofNat.
  apply lt_0_INR in Hc. apply lt_0_INR in Hn.
  destruct (Req_dec_T (INR n) 0); [lra |].
  destruct (Req_dec_T (INR c) 0); [lra |].
  destruct (Rlt_dec 0 (INR c)); [| lra].
  now rewrite Rpower_pow.
Qed.

Lemma overflow_cases (r : R) :
  0 < r -> overflow r = PInf /\ doubleRange <= r \/ overflow r = Fin r /\ r < doubleRange.
Proof.
  intros Hr. unfold overflow.
  assert (0 < doubleRange) by (unfold doubleRange; apply pow_lt; lra).
  destruct (Rle_dec doubleRange r); [left; split; [reflexivity | lra] |].
  destruct (Rle_dec r (- doubleRange)); [lra |]. right. split; [reflexivity | lra].
Qed.

(** The NIST entropy of a non-empty password is positive: [Infinity] when
    [charset ^ length] is beyond the doubles, its logarithm otherwise. *)
Lemma nist_cases (password : jsString) :
  password <> [] ->
  let c := INR (charset (calculateEntropy password)) in
  let n := List.length password in
  (nist (calculateEntropy password) = PInf /\ doubleRange <= c ^ n)
  \/ (nist (calculateEntropy password) = Fin (log2 (c ^ n))
      /\ 0 < log2 (c ^ n) /\ c ^ n < doubleRange).
Proof.
  intros Hp c n.
  pose proof (charset_range password Hp) as [Hc _].
  assert (Hn : (0 < n)%nat) by (unfold n; destruct password; [congruence | simpl; lia]).
  assert (Hnist : nist (calculateEntropy password)
                  = Math_log2 (Math_pow (ofNat (charset (calculateEntropy password)))
                                        (ofNat n))) by reflexivity.
  rewrite Hnist, pow_naturals by lia. fold c.
  assert (Hc10 : 10 <= c).
  { unfold c. replace 10 with (INR 10) by (simpl; lra). now apply le_INR. }
  assert (Hpow : 1 < c ^ n).
  { destruct n as [| n']; [lia |]. simpl.
    assert (1 <= c ^ n') by (apply pow_R1_Rle; lra). nra. }
  destruct (overflow_cases (c ^ n)) as [[-> Hov] | [-> Hin]]; [lra | | ].
  - left. split; [reflexivity | exact Hov].
  - right. rewrite log2_fin by lra. split; [reflexivity |].
    split; [apply log2_pos; exact Hpow | exact Hin].
Qed.

End Metrics.

(** ** The score is in the unit interval *)

Section ScoreRange.

Local Open Scope R_scope.

(** The score on finite metrics: a real between 0 and 1. *)
Lemma strength_range (password : jsString) (e : EntropyMetrics) (f : PatternFlags)
      (h u : R) :
  shannon e = Fin h ->
  uniqueness e = Fin u -> u <= 100 ->
  (charset e <= 94)%nat ->
  nist e = PInf \/ (exists v, nist e = Fin v) ->
  exists s, score (calculateStrength password e f) = Fin s /\ 0 <= s <= 1.
Proof.
  intros Hh Hu Hu100 Hc Hn.
  unfold calculateStrength. cbn [score]. rewrite Hh, Hu. unfold ofNat.
  rewrite !div_fin by lra.
  assert (Hnist : exists t, Math_min (div (nist e) (Fin 60)) (Fin 1) = Fin t /\ t <= 1).
  { destruct Hn as [-> | [v ->]].
    - rewrite div_pinf by lra. exists 1. split; [reflexivity | lra].
    - rewrite div_fin by lra. eexists. split; [reflexivity | apply Rmin_r]. }
  destruct Hnist as [t [-> Ht]].
  cbn [Math_min mul add sub neg Math_max].
  pose proof (Rmin_r (INR (List.length password) / 20) 1) as H1.
  pose proof (Rmin_r (h / 50) 1) as H2.
  apply le_INR in Hc. replace (INR 94) with 94 in Hc by (simpl; lra).
  pose proof (pos_INR (count f)) as Hcount.
  set (S := 0 + Rmin (INR (List.length password) / 20) 1 * 0.25
            + Rmin (h / 50) 1 * 0.30 + INR (charset e) / 94 * 0.15
            + u / 100 * 0.10 + t * 0.10 + 0.10).
  assert (HS : S <= 1) by (unfold S; lra).
  assert (Hmax : 0 <= Rmax 0 (S + - (INR (count f) * 0.08)) <= 1).
  { split; [apply Rmax_l |]. apply Rmax_lub; lra. }
  destruct (dictionary f); cbn [mul]; eexists; (split; [reflexivity | lra]).
Qed.

Lemma performAnalysis_score (this : PasswordAnalyzer) (password : jsString) :
  password <> [] ->
  exists s,
    score (strength (performAnalysis this password)) = Fin s
    /\ 0 <= s <= 1
    /\ displayed (performAnalysis this password) = ofZ (roundZ (s * 100))
    /\ (0 <= roundZ (s * 100) <= 100)%Z.
Proof.
  intros Hp. unfold performAnalysis. cbn [strength displayed].
  destruct (strength_range password (calculateEntropy password)
              (detectPatterns this password)
              (shannonR password)
              (INR (setSize password) / INR (List.length password) * 100))
    as [s [Hs Hrange]].
  - cbn [shannon calculateEntropy]. now apply shannon_finite.
  - cbn [uniqueness calculateEntropy]. now apply uniqueness_finite.
  - now apply uniqueness_range.
  - apply charset_le.
  - destruct (nist_cases password Hp) as [[Hn _] | [Hn _]]; [left | right; eexists]; exact Hn.
  - exists s. rewrite Hs. split; [reflexivity |]. split; [exact Hrange |].
    split; [reflexivity |].
    unfold roundZ. apply floor_bounds; lra.
Qed.

(** C1: the score of the report of a password is a real between 0 and 1,
    and the displayed score is [Math.round(score * 100)], an integer between
    0 and 100.  (The password is not empty: [analyzePassword] turns the
    empty input away before the analysis.) *)
Theorem score_in_unit_interval (this : PasswordAnalyzer) (password : jsString) :
  password <> [] ->
  exists s,
    score (strength (performAnalysis this password)) = Fin s
    /\ 0 <= s <= 1
    /\ displayed (performAnalysis this password)
       = Math_round (mul (Fin s) (Fin 100))
    /\ displayed (performAnalysis this password) = ofZ (roundZ (s * 100))
    /\ (0 <= roundZ (s * 100) <= 100)%Z.
Proof.
  intros Hp. destruct (performAnalysis_score this password Hp) as [s (Hs & Hr & Hd & Hz)].
  exists s. rewrite Hs in *. split; [reflexivity |]. split; [exact Hr |].
  split; [exact Hd |]. split; [exact Hd | exact Hz].
Qed.

Lemma score_in_unit_interval_witness :
  exists s,
    score (strength (performAnalysis constructor (lit "Tr0ub4dor&3"))) = Fin s
    /\ 0 <= s <= 1
    /\ displayed (performAnalysis constructor (lit "Tr0ub4dor&3"))
       = Math_round (mul (Fin s) (Fin 100))
    /\ displayed (performAnalysis constructor (lit "Tr0ub4dor&3"))
       = ofZ (roundZ (s * 100))
    /\ (0 <= roundZ (s * 100) <= 100)%Z.
Proof.
  apply (score_in_unit_interval constructor (lit "Tr0ub4dor&3")).
  discriminate.
Defined.

(** Every report that [analyzePassword] shows has such a score. *)
Corollary shown_score_in_unit_interval (this : PasswordAnalyzer) (value : jsString) :
  match snd (analyzePassword this value) with
  | Shown r =>
      exists s, score (strength r) = Fin s /\ 0 <= s <= 1
                /\ displayed r = ofZ (roundZ (s * 100))
                /\ (0 <= roundZ (s * 100) <= 100)%Z
  | Alert _ => trim value = []
  end.
Proof.
  rewrite analyzePassword_outcome. destruct (trim value) as [| u t] eqn:E; [reflexivity |].
  apply performAnalysis_score. discriminate.
Qed.

End ScoreRange.

(** ** The empty input and the one-character password *)

Section Degenerate.

Local Open Scope R_scope.

Lemma add_nan_r (x : number) : add x NaN = NaN.
Proof. destruct x; reflexivity. Qed.

Lemma add_nan_l (x : number) : add NaN x = NaN.
Proof. destruct x; reflexivity. Qed.

Lemma uniqueness_empty : calculateUniqueness [] = NaN.
Proof.
  unfold calculateUniqueness, setSize, ofNat. simpl.
  destruct (Req_dec_T 0 0) as [_ | H]; [| contradiction].
  unfold infOfSign. destruct (Rlt_dec 0 0); [lra | reflexivity].
Qed.

(** C3, as the claim has it, fails: the engine has no guard of its own; on
    the empty string [performAnalysis] returns a report whose uniqueness,
    score and displayed score are [NaN]. *)
Lemma engine_has_no_empty_guard :
  uniqueness (entropy (performAnalysis constructor [])) = NaN
  /\ score (strength (performAnalysis constructor [])) = NaN
  /\ displayed (performAnalysis constructor []) = NaN.
Proof.
  assert (Hs : score (strength (performAnalysis constructor [])) = NaN).
  { unfold performAnalysis. cbn [strength]. unfold calculateStrength. cbn [score].
    cbn [uniqueness calculateEntropy]. rewrite uniqueness_empty.
    cbn [div mul]. rewrite add_nan_r, !add_nan_l.
    replace (dictionary (detectPatterns constructor [])) with false
      by (vm_compute; reflexivity).
    reflexivity. }
  split; [exact uniqueness_empty |]. split; [exact Hs |].
  unfold performAnalysis in *. cbn [displayed strength] in *. now rewrite Hs.
Qed.

(** C3, as the code has it: [analyzePassword] turns away an input that is
    empty once trimmed, with an alert and without touching the instance;
    every other input is analysed, and then the Shannon entropy and the
    uniqueness are finite (no division by zero, no logarithm of zero). *)
Theorem empty_input_is_rejected (this : PasswordAnalyzer) (value : jsString) :
  match trim value with
  | [] => analyzePassword this value
          = (this, Alert "Please enter a password to analyze")
  | u :: t =>
      snd (analyzePassword this value) = Shown (performAnalysis this (u :: t))
      /\ (exists h, shannon (entropy (performAnalysis this (u :: t))) = Fin h)
      /\ (exists q, uniqueness (entropy (performAnalysis this (u :: t))) = Fin q
                    /\ 0 < q <= 100)
  end.
Proof.
  pose proof (analyzePassword_outcome this value) as Ho.
  unfold analyzePassword in *. destruct (trim value) as [| u t]; [reflexivity |].
  assert (Hne : u :: t <> []) by discriminate.
  split; [exact Ho |]. split.
  - eexists. cbn [performAnalysis entropy shannon calculateEntropy].
    now apply shannon_finite.
  - eexists. cbn [performAnalysis entropy uniqueness calculateEntropy].
    split; [now apply uniqueness_finite | now apply uniqueness_range].
Qed.

Lemma shannonR_single (u : codeUnit) : shannonR [u] = 0.
Proof.
  unfold shannonR, entropyLoop. simpl.
  replace (1 / 1) with 1 by lra. rewrite log2_1. lra.
Qed.

Lemma pow_two_zero : Math_pow (Fin 2) (div (Fin 0) (Fin 2)) = Fin 1.
Proof.
  rewrite div_fin by lra. unfold Math_pow.
  destruct (Req_dec_T (0 / 2) 0); [reflexivity | lra].
Qed.

Lemma formatTime_instant (s : R) : s < 1 -> formatTime (Fin s) = Instant.
Proof.
  intros Hs. unfold formatTime.
  destruct (lt (Fin s) (Fin 1)) eqn:E; [reflexivity |].
  apply lt_fin_false in E. lra.
Qed.

Lemma doubleRange_big : 94 < doubleRange.
Proof.
  unfold doubleRange. rewrite pow_IZR. apply IZR_lt. vm_compute. reflexivity.
Qed.

(** C9 on the code, where it holds: for a password of one code unit
    ([password.length] is 1) the Shannon entropy is 0, the uniqueness 100,
    and the NIST entropy, the score and the displayed score are finite
    numbers; the three crack times are [Instant]. *)
Theorem single_character_metrics (this : PasswordAnalyzer) (u : codeUnit) :
  let r := performAnalysis this [u] in
  shannon (entropy r) = Fin 0
  /\ uniqueness (entropy r) = Fin 100
  /\ isFinite (nist (entropy r))
  /\ isFinite (score (strength r))
  /\ isFinite (displayed r)
  /\ crackTimes r = {| online := Instant; offline_cpu := Instant; offline_gpu := Instant |}.
Proof.
  cbn zeta.
  assert (Hne : [u] <> []) by discriminate.
  assert (Hsh : calculateShannonEntropy [u] = Fin 0).
  { rewrite shannon_finite by exact Hne. now rewrite shannonR_single. }
  split; [exact Hsh |]. split.
  { cbn [performAnalysis entropy uniqueness calculateEntropy].
    rewrite uniqueness_finite by exact Hne. f_equal. unfold setSize. simpl. lra. }
  split.
  { destruct (nist_cases _ Hne) as [[_ Hov] | [Hn _]].
    - exfalso. cbn [List.length] in Hov. rewrite pow_1 in Hov.
      pose proof (charset_range _ Hne) as [_ Hc]. apply le_INR in Hc.
      replace (INR 94) with 94 in Hc by (simpl; lra).
      pose proof doubleRange_big. lra.
    - cbn [performAnalysis entropy]. rewrite Hn. exact I. }
  destruct (performAnalysis_score this _ Hne) as [s (Hs & _ & Hd & _)].
  split; [rewrite Hs; exact I |]. split; [rewrite Hd; exact I |].
  cbn [performAnalysis crackTimes]. unfold estimateCrackTimes.
  cbn [shannon calculateEntropy]. rewrite Hsh, pow_two_zero.
  rewrite !div_fin by lra. rewrite !formatTime_instant by lra. reflexivity.
Qed.

End Degenerate.

(** ** The NIST entropy *)

Section Nist.

Local Open Scope R_scope.

Lemma INR_pow_IZR (c n : nat) : INR c ^ n = IZR (Z.of_nat c ^ Z.of_nat n).
Proof. now rewrite INR_IZR_INZ, pow_IZR. Qed.

Lemma log2_pow (c : R) (n : nat) : 0 < c -> log2 (c ^ n) = INR n * log2 c.
Proof. intros Hc. unfold log2. rewrite ln_pow by exact Hc. lra. Qed.

(** C10 on the code: for a non-empty password the size of the character
    set is between 10 and 94 and the NIST entropy is positive; it is the
    finite [length * log2 charset] as long as [charset ^ length] is a
    double, which holds up to 156 characters. *)
Lemma nist_finite_up_to_156 (password : jsString) :
  password <> [] ->
  (List.length password <= 156)%nat ->
  (10 <= charset (calculateEntropy password) <= 94)%nat
  /\ nist (calculateEntropy password)
     = Fin (INR (List.length password)
            * log2 (INR (charset (calculateEntropy password))))
  /\ 0 < INR (List.length password) * log2 (INR (charset (calculateEntropy password))).
Proof.
  intros Hp Hlen. pose proof (charset_range password Hp) as Hc. split; [exact Hc |].
  assert (H1 : 1 <= INR (charset (calculateEntropy password))).
  { replace 1 with (INR 1) by reflexivity. apply le_INR. lia. }
  destruct (nist_cases password Hp) as [[_ Hov] | [Hn [Hpos _]]].
  - exfalso.
    assert (H94 : INR (charset (calculateEntropy password)) <= 94).
    { replace 94 with (INR 94) by (simpl; lra). apply le_INR. lia. }
    assert (Hb : INR (charset (calculateEntropy password)) ^ List.length password
                 <= 94 ^ 156).
    { apply Rle_trans with (94 ^ List.length password).
      - apply pow_incr. lra.
      - apply Rle_pow; [lra | exact Hlen]. }
    assert (Hlt : 94 ^ 156 < doubleRange).
    { unfold doubleRange. rewrite !pow_IZR. apply IZR_lt. vm_compute. reflexivity. }
    lra.
  - rewrite log2_pow in Hn, Hpos by lra. split; [exact Hn | exact Hpos].
Qed.

(** C10 fails on longer passwords: [Math.pow(94, 200)] is beyond the
    doubles, so the NIST entropy of the report is [Infinity]. *)
Theorem nist_overflows_on_long_password :
  List.length longPassword = 200%nat
  /\ charset (calculateEntropy longPassword) = 94%nat
  /\ nist (calculateEntropy longPassword) = PInf.
Proof.
  assert (Hc : charset (calculateEntropy longPassword) = 94%nat).
  { unfold calculateEntropy. cbn [charset]. rewrite !test_Cls.
    vm_compute. reflexivity. }
  assert (Hl : List.length longPassword = 200%nat) by (vm_compute; reflexivity).
  split; [exact Hl |]. split; [exact Hc |].
  assert (Hne : longPassword <> []) by (intros H; rewrite H in Hl; discriminate Hl).
  destruct (nist_cases _ Hne) as [[Hn _] | [_ [_ Hin]]]; [exact Hn | exfalso].
  rewrite Hc, Hl, INR_pow_IZR in Hin. unfold doubleRange in Hin.
  rewrite pow_IZR in Hin. apply lt_IZR in Hin. vm_compute in Hin. discriminate Hin.
Qed.

End Nist.

(** ** Crack times *)

Section CrackTimes.

Local Open Scope R_scope.

Lemma doubleRange_pos : 1 < doubleRange.
Proof. pose proof doubleRange_big. lra. Qed.

(** [Math.pow(2, y)] is the real power of 2, or [Infinity] past the doubles. *)
Lemma pow_two (y : R) : Math_pow (Fin 2) (Fin y) = overflow (Rpower 2 y).
Proof.
  unfold Math_pow. destruct (Req_dec_T y 0) as [-> | Hy].
  - rewrite Rpower_O by lra. unfold overflow. pose proof doubleRange_pos.
    destruct (Rle_dec doubleRange 1); [lra |].
    destruct (Rle_dec 1 (- doubleRange)); [lra | reflexivity].
  - destruct (Req_dec_T 2 0); [lra |]. destruct (Rlt_dec 0 2); [reflexivity | lra].
Qed.

Lemma formatTime_spec (s : R) : formatTime (Fin s) = specFormat s.
Proof.
  unfold formatTime, specFormat. cbn [lt].
  repeat (match goal with
          | |- context [Rlt_dec ?a ?b] => destruct (Rlt_dec a b)
          end; try reflexivity).
  all: rewrite ?div_fin by lra; reflexivity.
Qed.

Lemma toString_integer (z : Z) :
  (Z.abs z < 10 ^ 21)%Z ->
  toString (ofZ z) = Some (DecimalString.NilZero.string_of_int (Z.to_int z)).
Proof.
  intros Hz. unfold toString, ofZ. rewrite isInteger_IZR, floor_IZR.
  apply Z.ltb_lt in Hz. now rewrite Hz.
Qed.

(** A password whose guesses are beyond the doubles is given infinitely
    many years. *)
Lemma formatTime_infinity (d : R) :
  0 < d -> formatTime (div PInf (Fin d)) = Amount PInf years.
Proof.
  intros Hd. rewrite div_pinf by exact Hd. unfold formatTime. cbn [lt].
  rewrite div_pinf by lra. reflexivity.
Qed.

(** C6 on the code, where it holds: the number of guesses is
    [2 ^ (shannon / 2)] as long as that is a double, and [Infinity] past
    the doubles; it is divided by 1e3, 1e6 and 1e9; a finite number of
    seconds is formatted by the table of section 4.4, each amount being
    rounded to a nearest integer; and the three examples of the
    specification. *)
Theorem crack_time_format :
  (forall password h n c u,
      estimateCrackTimes password
        {| shannon := Fin h; nist := n; charset := c; uniqueness := u |}
      = {| online := formatTime (div (overflow (Rpower 2 (h / 2))) (Fin 1000));
           offline_cpu := formatTime (div (overflow (Rpower 2 (h / 2))) (Fin 1000000));
           offline_gpu :=
             formatTime (div (overflow (Rpower 2 (h / 2))) (Fin 1000000000)) |})
  /\ (forall s, formatTime (Fin s) = specFormat s)
  /\ (forall x, IZR (roundZ x) - / 2 <= x < IZR (roundZ x) + / 2)
  /\ timeString (formatTime (Fin 0.5)) = Some "Instant"%string
  /\ timeString (formatTime (Fin 45)) = Some "45 seconds"%string
  /\ timeString (formatTime (Fin 90)) = Some "2 minutes"%string.
Proof.
  split.
  { intros password h n c u. unfold estimateCrackTimes. cbn [shannon].
    rewrite div_fin by lra. now rewrite pow_two. }
  split; [exact formatTime_spec |]. split; [exact roundZ_nearest |].
  split; [| split].
  - rewrite formatTime_instant by lra. reflexivity.
  - rewrite formatTime_spec. unfold specFormat.
    destruct (Rlt_dec 45 1); [lra |]. destruct (Rlt_dec 45 60); [| lra].
    rewrite (roundZ_unique 45 45) by lra.
    cbn [timeString]. rewrite toString_integer by (vm_compute; reflexivity).
    reflexivity.
  - rewrite formatTime_spec. unfold specFormat.
    destruct (Rlt_dec 90 1); [lra |]. destruct (Rlt_dec 90 60); [lra |].
    destruct (Rlt_dec 90 3600); [| lra].
    rewrite (roundZ_unique (90 / 60) 2) by lra.
    cbn [timeString]. rewrite toString_integer by (vm_compute; reflexivity).
    reflexivity.
Qed.

End CrackTimes.

(** ** Appending a new character *)

Section Monotone.

Local Open Scope R_scope.

Lemma chars_pair (h l : codeUnit) (t : jsString) :
  isHighSurrogate h && isLowSurrogate l = true ->
  chars (h :: l :: t) = [h; l] :: chars t.
Proof. intros E. simpl. rewrite E. reflexivity. Qed.

Lemma chars_single (h l : codeUnit) (t : jsString) :
  isHighSurrogate h && isLowSurrogate l = false ->
  chars (h :: l :: t) = [h] :: chars (l :: t).
Proof. intros E. simpl. rewrite E. reflexivity. Qed.

Lemma chars_snoc (p : jsString) (c : codeUnit) :
  chars (p ++ [c]) = chars p ++ [[c]]
  \/ exists cs0 h, chars p = cs0 ++ [[h]] /\ chars (p ++ [c]) = cs0 ++ [[h; c]].
Proof.
  induction p as [| h | h l t E IH | h l t E IH] using chars_ind.
  - left. reflexivity.
  - change ([h] ++ [c]) with [h; c].
    destruct (isHighSurrogate h && isLowSurrogate c) eqn:E.
    + right. exists [], h. split; [reflexivity | now rewrite chars_pair].
    + left. now rewrite chars_single.
  - change ((h :: l :: t) ++ [c]) with (h :: l :: (t ++ [c])).
    rewrite !chars_pair by exact E.
    destruct IH as [-> | (cs0 & h0 & -> & ->)].
    + left. reflexivity.
    + right. exists ([h; l] :: cs0), h0. split; reflexivity.
  - change ((h :: l :: t) ++ [c]) with (h :: l :: (t ++ [c])).
    rewrite !chars_single by exact E.
    change (l :: t ++ [c]) with ((l :: t) ++ [c]).
    destruct IH as [-> | (cs0 & h0 & -> & ->)].
    + left. reflexivity.
    + right. exists ([h] :: cs0), h0. split; reflexivity.
Qed.

(** The elements of the iteration are made of code units of the string. *)
Lemma chars_units (p : jsString) (k : jsString) (u : codeUnit) :
  In k (chars p) -> In u k -> In u p.
Proof.
  induction p as [| h | h l t E IH | h l t E IH] using chars_ind; intros Hk Hu.
  - destruct Hk.
  - destruct Hk as [<- | []]. exact Hu.
  - rewrite chars_pair in Hk by exact E. destruct Hk as [<- | Hk].
    + destruct Hu as [<- | [<- | []]]; simpl; auto.
    + right. right. now apply IH.
  - rewrite chars_single in Hk by exact E. destruct Hk as [<- | Hk].
    + destruct Hu as [<- | []]. now left.
    + right. now apply IH.
Qed.

Lemma eqb_false (a b : jsString) : a <> b -> Str.eqb a b = false.
Proof. intros H. unfold Str.eqb. destruct (list_eq_dec N.eq_dec a b); congruence. Qed.

Lemma bump_absent (freq : freqTable) (x : jsString) :
  ~ In x (map fst freq) -> bump freq x = freq ++ [(x, 1%nat)].
Proof.
  induction freq as [| [k n] rest IH]; intros H; [reflexivity |].
  simpl in *. rewrite eqb_false by tauto. rewrite IH by tauto. reflexivity.
Qed.

Lemma bump_keys (freq : freqTable) (x k : jsString) :
  In k (map fst (bump freq x)) -> k = x \/ In k (map fst freq).
Proof.
  induction freq as [| [k0 n] rest IH]; simpl.
  - intros [<- | []]. now left.
  - destruct (Str.eqb k0 x); simpl; intros [<- | H]; auto.
    destruct (IH H); auto.
Qed.

Lemma freq_keys (cs : list jsString) (freq : freqTable) (k : jsString) :
  In k (map fst (fold_left bump cs freq)) -> In k cs \/ In k (map fst freq).
Proof.
  revert freq. induction cs as [| c cs IH]; intros freq H; simpl in *; [now right |].
  destruct (IH _ H) as [H1 | H1]; [now left; right |].
  destruct (bump_keys _ _ _ H1) as [-> | H2]; [now left; left | now right].
Qed.

Lemma Rsum_app (l1 l2 : list R) : Rsum (l1 ++ l2) = Rsum l1 + Rsum l2.
Proof. induction l1 as [| a l1 IH]; simpl; [lra | rewrite IH; lra]. Qed.

Lemma entropyLoop_sum (len : R) (counts : list nat) (e : R) :
  entropyLoop len counts e
  = e - Rsum (map (fun n => INR n / len * log2 (INR n / len)) counts).
Proof.
  unfold entropyLoop. revert e.
  induction counts as [| c cs IH]; intros e; simpl; [lra | rewrite IH; lra].
Qed.

Lemma log2_div (a b : R) : 0 < a -> 0 < b -> log2 (a / b) = log2 a - log2 b.
Proof.
  intros Ha Hb. unfold log2.
  replace (a / b) with (a * / b) by reflexivity.
  rewrite ln_mult, ln_Rinv; try assumption; [lra | now apply Rinv_0_lt_compat].
Qed.

(** The Shannon entropy of the report, character by character. *)
Lemma shannonR_bits (password : jsString) :
  password <> [] ->
  shannonR password
  = Rsum (map (bits (INR (List.length password)))
              (map snd (fold_left bump (chars password) []))).
Proof.
  intros Hp. unfold shannonR. rewrite entropyLoop_sum.
  pose proof (length_pos _ Hp) as HL.
  assert (Hpos : Forall (fun n => (0 < n)%nat)
                        (map snd (fold_left bump (chars password) []))).
  { apply freq_positive. constructor. }
  induction Hpos as [| n counts Hn _ IH]; simpl; [lra |].
  apply lt_0_INR in Hn. unfold bits at 1. rewrite log2_div by assumption.
  assert (E : INR n / INR (List.length password) * INR (List.length password) = INR n).
  { unfold Rdiv. rewrite Rmult_assoc, Rinv_l by lra. lra. }
  rewrite <- IH.
  set (a := log2 (INR n)). set (b := log2 (INR (List.length password))).
  set (q := INR n / INR (List.length password)) in *.
  rewrite <- E. ring.
Qed.

Lemma bits_len_le (len len' : R) (n : nat) :
  0 < len -> len <= len' -> bits len n <= bits len' n.
Proof.
  intros H0 Hle. unfold bits. pose proof (pos_INR n).
  pose proof (log2_le _ _ H0 Hle). nra.
Qed.

Lemma Rsum_bits_len_le (len len' : R) (counts : list nat) :
  0 < len -> len <= len' ->
  Rsum (map (bits len) counts) <= Rsum (map (bits len') counts).
Proof.
  intros H0 Hle. induction counts as [| n cs IH]; simpl; [lra |].
  assert (bits len n <= bits len' n) by (now apply bits_len_le). lra.
Qed.

Lemma bits_one (len : R) : bits len 1 = log2 len.
Proof. unfold bits. simpl INR. rewrite log2_1. lra. Qed.

(** One more occurrence of a character adds at most [log2 len]. *)
Lemma bits_succ (len : R) (n : nat) : bits len (S n) <= bits len n + log2 len.
Proof.
  unfold bits. rewrite S_INR. pose proof (pos_INR n) as Hn.
  destruct n as [| m].
  - simpl INR. replace (0 + 1) with 1 by lra. rewrite log2_1. lra.
  - assert (H1 : 1 <= INR (S m)).
    { replace 1 with (INR 1) by reflexivity. apply le_INR. lia. }
    assert (Hlog : log2 (INR (S m)) <= log2 (INR (S m) + 1)) by (apply log2_le; lra).
    pose proof (log2_nonneg _ H1). nra.
Qed.

Lemma bump_bits (len : R) (freq : freqTable) (x : jsString) :
  Rsum (map (bits len) (map snd (bump freq x)))
  <= Rsum (map (bits len) (map snd freq)) + log2 len.
Proof.
  induction freq as [| [k n] rest IH]; simpl.
  - rewrite bits_one. lra.
  - destruct (Str.eqb k x); simpl.
    + pose proof (bits_succ len n). lra.
    + lra.
Qed.

Lemma shannonR_append (p : jsString) (c : codeUnit) :
  p <> [] -> ~ In c p -> shannonR p <= shannonR (p ++ [c]).
Proof.
  intros Hp Hc.
  assert (Hp' : p ++ [c] <> []) by (destruct p; discriminate).
  rewrite (shannonR_bits _ Hp), (shannonR_bits _ Hp').
  pose proof (length_pos _ Hp) as HL.
  rewrite length_app, plus_INR. simpl INR.
  set (L := INR (List.length p)) in *.
  assert (HL1 : 1 <= L).
  { unfold L. replace 1 with (INR 1) by reflexivity. apply le_INR.
    destruct p; [congruence | simpl; lia]. }
  assert (Hlog : 0 <= log2 (L + 1)) by (apply log2_nonneg; lra).
  assert (Hmono : log2 L <= log2 (L + 1)) by (apply log2_le; lra).
  destruct (chars_snoc p c) as [E | (cs0 & h & E0 & E)].
  - (* the new code unit is a character of its own *)
    rewrite E, fold_left_app. cbn [fold_left].
    rewrite bump_absent.
    + rewrite !map_app, Rsum_app. cbn [map Rsum fold_right snd]. rewrite bits_one.
      assert (Hsum : Rsum (map (bits L) (map snd (fold_left bump (chars p) [])))
                     <= Rsum (map (bits (L + 1)) (map snd (fold_left bump (chars p) []))))
        by (apply Rsum_bits_len_le; lra).
      lra.
    + intros Hin. apply freq_keys in Hin. destruct Hin as [Hin | []].
      apply Hc. eapply chars_units; [exact Hin | now left].
  - (* the new code unit completes a surrogate pair *)
    rewrite E, E0, !fold_left_app. cbn [fold_left].
    rewrite (bump_absent _ [h; c]).
    + rewrite !map_app, Rsum_app. cbn [map Rsum fold_right snd]. rewrite bits_one.
      pose proof (bump_bits L (fold_left bump cs0 []) [h]) as Hb.
      assert (Hsum : Rsum (map (bits L) (map snd (fold_left bump cs0 [])))
                     <= Rsum (map (bits (L + 1)) (map snd (fold_left bump cs0 []))))
        by (apply Rsum_bits_len_le; lra).
      eapply Rle_trans; [exact Hb |].
      apply Rplus_le_compat; [exact Hsum | lra].
    + intros Hin. apply freq_keys in Hin. destruct Hin as [Hin | []].
      apply Hc. apply chars_units with (k := [h; c]).
      * rewrite E0. apply in_or_app. now left.
      * right. now left.
Qed.

(** C8: appending a code unit that does not occur in a non-empty password
    does not decrease the Shannon entropy of the report (the entropy per
    character of the frequency distribution, times the length). *)
Theorem shannon_monotone (p : jsString) (c : codeUnit) :
  p <> [] ->
  ~ In c p ->
  exists h h',
    calculateShannonEntropy p = Fin h
    /\ calculateShannonEntropy (p ++ [c]) = Fin h'
    /\ h <= h'.
Proof.
  intros Hp Hc. exists (shannonR p), (shannonR (p ++ [c])).
  split; [now apply shannon_finite |].
  split; [apply shannon_finite; destruct p; discriminate |].
  now apply shannonR_append.
Qed.

Lemma shannon_monotone_witness :
  exists h h',
    calculateShannonEntropy (lit "pass") = Fin h
    /\ calculateShannonEntropy (lit "pass" ++ [119%N]) = Fin h'
    /\ h <= h'.
Proof.
  apply (shannon_monotone (lit "pass") 119%N).
  - discriminate.
  - vm_compute. intuition discriminate.
Defined.

End Monotone.

(** ** The matcher and the meaning of patterns *)

Section Matcher.

Lemma lastUnit_app (prev : option codeUnit) (w1 w2 : jsString) :
  lastUnit prev (w1 ++ w2) = lastUnit (lastUnit prev w1) w2.
Proof. unfold lastUnit. apply fold_left_app. Qed.

Lemma copiesK_spec (a : codeUnit) (s : jsString) :
  forall (n : nat) (prev : option codeUnit) (k : option codeUnit -> jsString -> bool),
    copiesK a n prev s k = true
    <-> exists m rest, (n <= m)%nat /\ s = repeat a m ++ rest
                       /\ k (lastUnit prev (repeat a m)) rest = true.
Proof.
  induction s as [| u t IH]; intros n prev k.
  - destruct n as [| n']; simpl.
    + rewrite orb_false_r. split.
      * intros H. exists 0%nat, []. auto.
      * intros (m & rest & _ & E & H). destruct m; [| discriminate E].
        simpl in E. subst rest. exact H.
    + split; [discriminate |].
      intros (m & rest & Hm & E & _). destruct m; [lia | discriminate E].
  - destruct n as [| n']; simpl.
    + rewrite orb_true_iff, andb_true_iff, N.eqb_eq, IH. split.
      * intros [H | [-> (m & rest & _ & -> & H)]].
        -- exists 0%nat, (u :: t). auto.
        -- exists (S m), rest. repeat split; [lia | exact H].
      * intros (m & rest & _ & E & H). destruct m as [| m].
        -- left. simpl in E. subst rest. exact H.
        -- right. simpl in E. injection E as -> ->. split; [reflexivity |].
           exists m, rest. repeat split; [lia | exact H].
    + rewrite andb_true_iff, N.eqb_eq, IH. split.
      * intros [-> (m & rest & Hm & -> & H)].
        exists (S m), rest. repeat split; [lia | exact H].
      * intros (m & rest & Hm & E & H). destruct m as [| m]; [lia |].
        simpl in E. injection E as -> ->. split; [reflexivity |].
        exists m, rest. repeat split; [lia | exact H].
Qed.

(** The matcher finds exactly the matches of [den], whatever follows. *)
Lemma matchK_den (r : regex) :
  forall (prev : option codeUnit) (s : jsString)
         (k : option codeUnit -> jsString -> bool),
    matchK r prev s k = true
    <-> exists w rest, s = w ++ rest /\ den r prev w rest
                       /\ k (lastUnit prev w) rest = true.
Proof.
  induction r as [f | | r1 IH1 r2 IH2 | r1 IH1 r2 IH2 | | n]; intros prev s k.
  - (* Cls *)
    destruct s as [| u t]; simpl.
    + split; [discriminate |].
      intros (w & rest & E & (u & -> & _) & _). discriminate E.
    + rewrite andb_true_iff. split.
      * intros [Hf Hk]. exists [u], t. repeat split; eauto.
      * intros (w & rest & E & (u' & -> & Hf) & Hk).
        injection E as -> ->. auto.
  - (* Eps *)
    simpl. split.
    + intros H. exists [], s. auto.
    + intros (w & rest & -> & -> & H). exact H.
  - (* Seq *)
    simpl. rewrite IH1. split.
    + intros (w1 & rest1 & -> & D1 & H). apply IH2 in H.
      destruct H as (w2 & rest & -> & D2 & H).
      exists (w1 ++ w2), rest. rewrite app_assoc, lastUnit_app.
      repeat split; [| exact H]. exists w1, w2. auto.
    + intros (w & rest & -> & (w1 & w2 & -> & D1 & D2) & H).
      exists w1, (w2 ++ rest). rewrite app_assoc. repeat split; [exact D1 |].
      apply IH2. exists w2, rest. rewrite lastUnit_app in H. auto.
  - (* Alt *)
    simpl. rewrite orb_true_iff, IH1, IH2. split.
    + intros [(w & rest & E & D & H) | (w & rest & E & D & H)];
        exists w, rest; auto.
    + intros (w & rest & E & [D | D] & H); [left | right]; exists w, rest; auto.
  - (* WordB *)
    simpl. rewrite andb_true_iff. split.
    + intros [Hb Hk]. exists [], s. auto.
    + intros (w & rest & -> & (-> & Hb) & Hk). auto.
  - (* DotBackref *)
    destruct s as [| a t]; simpl.
    + split; [discriminate |].
      intros (w & rest & E & (a & m & _ & -> & _) & _). discriminate E.
    + rewrite andb_true_iff, negb_true_iff, copiesK_spec. split.
      * intros [Ha (m & rest & Hm & -> & Hk)].
        exists (a :: repeat a m), rest. repeat split; [| exact Hk].
        exists a, m. auto.
      * intros (w & rest & E & (a' & m & Hm & -> & Ha) & Hk).
        simpl in E. injection E as -> ->. split; [exact Ha |].
        exists m, rest. auto.
Qed.

Lemma searchFrom_den (r : regex) (s : jsString) :
  forall prev : option codeUnit,
    searchFrom r prev s = true
    <-> exists pre w rest, s = pre ++ w ++ rest /\ den r (lastUnit prev pre) w rest.
Proof.
  induction s as [| u t IH]; intros prev; simpl;
    rewrite orb_true_iff, matchK_den.
  - split.
    + intros [(w & rest & E & D & _) | H]; [| discriminate H].
      exists [], w, rest. auto.
    + intros (pre & w & rest & E & D). left.
      destruct pre; [| discriminate E]. exists w, rest. auto.
  - rewrite IH. split.
    + intros [(w & rest & E & D & _) | (pre & w & rest & -> & D)].
      * exists [], w, rest. auto.
      * exists (u :: pre), w, rest. auto.
    + intros (pre & w & rest & E & D). destruct pre as [| u' pre].
      * left. exists w, rest. auto.
      * right. simpl in E. injection E as -> ->. exists pre, w, rest. auto.
Qed.

(** [test] finds a match of the pattern somewhere in the string. *)
Lemma test_den (r : regex) (s : jsString) :
  test r s = true
  <-> exists pre w rest, s = pre ++ w ++ rest /\ den r (lastUnit None pre) w rest.
Proof. apply searchFrom_den. Qed.

End Matcher.

(** ** The date pattern *)

Module DateFacts.

Import DateSpec.

Local Open Scope N_scope.

Lemma date_pattern_parts :
  CommonPatterns.date (commonPatterns constructor)
  = Alt (seqs [WordB; centuryRe; digit; digit; WordB])
        (seqs [WordB; monthRe; sepRe; dayRe; sepRe; yearRe; WordB]).
Proof. reflexivity. Qed.

Lemma inRange_spec (lo hi u : codeUnit) : inRange lo hi u = true <-> lo <= u <= hi.
Proof. unfold inRange. rewrite andb_true_iff, !N.leb_le. tauto. Qed.

Lemma isDigit_spec (u : codeUnit) : isDigit u = true <-> 48 <= u <= 57.
Proof. apply inRange_spec. Qed.

Lemma isDigit_word (u : codeUnit) : isDigit u = true -> isWord u = true.
Proof.
  intros H. unfold isWord, isAlnum. rewrite H. now rewrite !orb_true_r.
Qed.

Lemma allDigits_cons (u : codeUnit) (w : jsString) :
  allDigits (u :: w) = true <-> 48 <= u <= 57 /\ allDigits w = true.
Proof. unfold allDigits. simpl. now rewrite andb_true_iff, isDigit_spec. Qed.

(** The atoms of the pattern. *)
Lemma den_chr (a : ascii) (prev : option codeUnit) (w rest : jsString) :
  den (chr a) prev w rest <-> w = [N_of_ascii a].
Proof.
  unfold chr. cbn [den]. split.
  - intros (u & -> & H). apply N.eqb_eq in H. now subst.
  - intros ->. eexists. split; [reflexivity | apply N.eqb_refl].
Qed.

Lemma den_range (lo hi : ascii) (prev : option codeUnit) (w rest : jsString) :
  den (range lo hi) prev w rest
  <-> exists u, w = [u] /\ N_of_ascii lo <= u <= N_of_ascii hi.
Proof.
  unfold range. cbn [den]. split; intros (u & -> & H); exists u;
    (split; [reflexivity | now apply inRange_spec]).
Qed.

Lemma den_digit (prev : option codeUnit) (w rest : jsString) :
  den digit prev w rest <-> exists u, w = [u] /\ 48 <= u <= 57.
Proof.
  unfold digit. cbn [den]. split; intros (u & -> & H); exists u;
    (split; [reflexivity | now apply isDigit_spec]).
Qed.

Lemma den_oneOf2 (a b : ascii) (prev : option codeUnit) (w rest : jsString) :
  den (oneOf (String a (String b EmptyString))) prev w rest
  <-> exists u, w = [u] /\ (u = N_of_ascii a \/ u = N_of_ascii b).
Proof.
  unfold oneOf, lit. cbn [den list_ascii_of_string map existsb].
  split; intros (u & -> & H); exists u; (split; [reflexivity |]).
  - rewrite orb_false_r, orb_true_iff, !N.eqb_eq in H. exact H.
  - rewrite orb_false_r, orb_true_iff, !N.eqb_eq. exact H.
Qed.

Lemma den_sep (prev : option codeUnit) (w rest : jsString) :
  den sepRe prev w rest <-> exists u, w = [u] /\ isSep u = true.
Proof.
  unfold sepRe. rewrite den_oneOf2. unfold isSep.
  split; intros (u & -> & H); exists u; (split; [reflexivity |]).
  - rewrite orb_true_iff, !N.eqb_eq. exact H.
  - rewrite orb_true_iff, !N.eqb_eq in H. exact H.
Qed.

(** The code of a literal character. *)
Ltac codes :=
  repeat match goal with
         | |- context [N_of_ascii ?a] =>
             let v := eval vm_compute in (N_of_ascii a) in
             change (N_of_ascii a) with v
         | H : context [N_of_ascii ?a] |- _ =>
             let v := eval vm_compute in (N_of_ascii a) in
             change (N_of_ascii a) with v in H
         end.

Ltac den_atoms :=
  repeat match goal with
         | H : den (chr _) _ _ _ |- _ => apply den_chr in H
         | H : den (range _ _) _ _ _ |- _ => apply den_range in H
         | H : den digit _ _ _ |- _ => apply den_digit in H
         | H : den (oneOf _) _ _ _ |- _ => apply den_oneOf2 in H
         | H : den Eps _ _ _ |- _ => cbn [den] in H
         | H : den (Seq _ _) _ _ _ |- _ =>
             let w1 := fresh "w" in let w2 := fresh "w" in
             let E := fresh "E" in let D1 := fresh "D" in let D2 := fresh "D" in
             cbn [den] in H; destruct H as (w1 & w2 & E & D1 & D2)
         | H : den (Alt _ _) _ _ _ |- _ => cbn [den] in H; destruct H as [H | H]
         | H : exists _, _ |- _ => destruct H as [? H]
         | H : _ /\ _ |- _ => destruct H
         | H : _ \/ _ |- _ => destruct H
         end.

Lemma den_month (prev : option codeUnit) (w rest : jsString) :
  den monthRe prev w rest <-> isMonth w.
Proof.
  unfold monthRe, Opt, isMonth, value. split.
  - intros H. den_atoms; subst; codes; cbn [app List.length];
      rewrite ?allDigits_cons; cbn [fold_left];
      repeat split; try reflexivity; lia.
  - intros (Hlen & Hd & Hv).
    destruct w as [| a [| b [| c t]]]; simpl in Hlen; try lia.
    + apply allDigits_cons in Hd. cbn [fold_left] in Hv. left.
      cbn [den]. exists [], [a]. split; [reflexivity |]. split; [now right |].
      apply den_range. exists a. split; [reflexivity |]. codes. lia.
    + rewrite !allDigits_cons in Hd. cbn [fold_left] in Hv.
      destruct (N.eq_dec a 48) as [-> | Ha].
      * left. cbn [den]. exists [48], [b]. split; [reflexivity |]. split.
        -- left. now apply den_chr.
        -- apply den_range. exists b. split; [reflexivity |]. codes. lia.
      * right. cbn [den]. exists [a], [b]. split; [reflexivity |]. split.
        -- apply den_chr. codes. f_equal. lia.
        -- apply den_range. exists b. split; [reflexivity |]. codes. lia.
Qed.

Lemma den_day (prev : option codeUnit) (w rest : jsString) :
  den dayRe prev w rest <-> isDay w.
Proof.
  unfold dayRe, Opt, isDay, value. split.
  - intros H. den_atoms; subst; codes; cbn [app List.length];
      rewrite ?allDigits_cons; cbn [fold_left];
      repeat split; try reflexivity; lia.
  - intros (Hlen & Hd & Hv).
    destruct w as [| a [| b [| c t]]]; simpl in Hlen; try lia.
    + apply allDigits_cons in Hd. cbn [fold_left] in Hv. left.
      cbn [den]. exists [], [a]. split; [reflexivity |]. split; [now right |].
      apply den_range. exists a. split; [reflexivity |]. codes. lia.
    + rewrite !allDigits_cons in Hd. cbn [fold_left] in Hv.
      destruct (N.eq_dec a 48) as [-> | Ha]; [| destruct (N.eq_dec a 51) as [-> | Ha3]].
      * left. cbn [den]. exists [48], [b]. split; [reflexivity |]. split.
        -- left. now apply den_chr.
        -- apply den_range. exists b. split; [reflexivity |]. codes. lia.
      * right. right. cbn [den]. exists [51], [b]. split; [reflexivity |]. split.
        -- now apply den_chr.
        -- apply den_oneOf2. exists b. split; [reflexivity |]. codes. lia.
      * right. left. cbn [den]. exists [a], [b]. split; [reflexivity |]. split.
        -- apply den_oneOf2. exists a. split; [reflexivity |]. codes. lia.
        -- apply den_digit. exists b. split; [reflexivity |]. lia.
Qed.

Lemma den_year (prev : option codeUnit) (w rest : jsString) :
  den yearRe prev w rest <-> isShortOrLongYear w.
Proof.
  unfold yearRe, isShortOrLongYear. cbn [seqs]. split.
  - intros H. den_atoms; subst; cbn [app List.length];
      rewrite ?allDigits_cons; repeat split; try reflexivity; try lia; auto.
  - intros ([Hlen | Hlen] & Hd).
    + destruct w as [| a [| b [| c t]]]; try discriminate Hlen.
      rewrite !allDigits_cons in Hd. left. cbn [den].
      exists [a], [b]. split; [reflexivity |].
      split; apply den_digit; eexists; (split; [reflexivity | tauto]).
    + destruct w as [| a [| b [| c [| d [| e t]]]]]; try discriminate Hlen.
      rewrite !allDigits_cons in Hd. right. cbn [den].
      exists [a], [b; c; d]. split; [reflexivity |].
      split; [apply den_digit; eexists; (split; [reflexivity | tauto]) |].
      exists [b], [c; d]. split; [reflexivity |].
      split; [apply den_digit; eexists; (split; [reflexivity | tauto]) |].
      exists [c], [d]. split; [reflexivity |].
      split; apply den_digit; eexists; (split; [reflexivity | tauto]).
Qed.

Lemma digits_head (m x : jsString) :
  allDigits m = true -> m <> [] -> isWordAt (hd_error (m ++ x)) = true.
Proof.
  destruct m as [| u t]; [congruence |]. intros H _.
  apply andb_true_iff in H. simpl. apply isDigit_word, H.
Qed.

Lemma digits_last (y : jsString) :
  forall q : option codeUnit,
    allDigits y = true -> y <> [] -> isWordAt (lastUnit q y) = true.
Proof.
  induction y as [| u t IH]; intros q H Hne; [congruence |].
  apply andb_true_iff in H. destruct H as [Hu Ht].
  destruct t as [| v t'].
  - simpl. now apply isDigit_word.
  - change (lastUnit q (u :: v :: t')) with (lastUnit (Some u) (v :: t')).
    apply IH; [exact Ht | discriminate].
Qed.

Lemma xorb_word_l (a : bool) : xorb a true = true <-> a = false.
Proof. destruct a; simpl; split; congruence. Qed.

Lemma xorb_word_r (b : bool) : xorb true b = true <-> b = false.
Proof. destruct b; simpl; split; congruence. Qed.

(** [\b(19|20)\d{2}\b]: four digits that write a number from 1900 to 2099,
    with no word character before or after. *)
Lemma den_year_alternative (prev : option codeUnit) (w rest : jsString) :
  den (seqs [WordB; centuryRe; digit; digit; WordB]) prev w rest
  <-> isYear19or20 w /\ isWordAt prev = false /\ isWordAt (hd_error rest) = false.
Proof.
  unfold centuryRe, word, isYear19or20, value.
  cbn [seqs list_ascii_of_string map]. split.
  - intros H. cbn [den] in H.
    destruct H as (w0 & w1 & -> & (-> & B1) & (wc & w2 & -> & C & (wd1 & w3 & -> & D1
                   & (wd2 & w4 & -> & D2 & (-> & B2))))).
    apply den_digit in D1, D2. destruct D1 as (d1 & -> & Hd1), D2 as (d2 & -> & Hd2).
    assert (Hc : wc = [49; 57] \/ wc = [50; 48]).
    { destruct C as [(a & b & -> & A & B) | (a & b & -> & A & B)];
        apply den_chr in A, B; subst; [left | right]; reflexivity. }
    assert (Hw2 : isWord d2 = true) by (apply isDigit_word, isDigit_spec, Hd2).
    cbn [lastUnit fold_left app isWordAt] in B2. rewrite Hw2 in B2. apply xorb_word_r in B2.
    destruct Hc as [-> | ->]; cbn [app hd_error isWordAt] in B1;
      (replace (isWord 49) with true in B1 by reflexivity);
      (replace (isWord 50) with true in B1 by reflexivity);
      apply xorb_word_l in B1;
      cbn [app List.length]; rewrite ?allDigits_cons; cbn [fold_left];
      repeat split; try reflexivity; try assumption; lia.
  - intros ((Hlen & Hd & Hv) & Hp & Hr).
    destruct w as [| a [| b [| c [| d [| e t]]]]]; try discriminate Hlen.
    rewrite !allDigits_cons in Hd. cbn [fold_left] in Hv.
    assert (Hab : a = 49 /\ b = 57 \/ a = 50 /\ b = 48) by lia.
    assert (Ha : isWord a = true) by (apply isDigit_word, isDigit_spec; tauto).
    assert (Hdw : isWord d = true) by (apply isDigit_word, isDigit_spec; tauto).
    cbn [den]. exists [], [a; b; c; d]. split; [reflexivity |]. split.
    { split; [reflexivity |]. cbn [app hd_error isWordAt]. now rewrite Hp, Ha. }
    exists [a; b], [c; d]. split; [reflexivity |]. split.
    { destruct Hab as [[-> ->] | [-> ->]]; [left | right].
      - exists [49], [57]. split; [reflexivity |]. split; now apply den_chr.
      - exists [50], [48]. split; [reflexivity |]. split; now apply den_chr. }
    exists [c], [d]. split; [reflexivity |].
    split; [apply den_digit; eexists; (split; [reflexivity | tauto]) |].
    exists [d], []. split; [reflexivity |].
    split; [apply den_digit; eexists; (split; [reflexivity | tauto]) |].
    split; [reflexivity |]. cbn [lastUnit fold_left app isWordAt].
    now rewrite Hdw, Hr.
Qed.

Lemma month_nonempty (m : jsString) : isMonth m -> allDigits m = true /\ m <> [].
Proof. intros (Hlen & Hd & _). split; [exact Hd |]. destruct m; [simpl in Hlen; lia | discriminate]. Qed.

Lemma year_nonempty (y : jsString) :
  isShortOrLongYear y -> allDigits y = true /\ y <> [].
Proof.
  intros (Hlen & Hd). split; [exact Hd |].
  destruct y; [destruct Hlen; discriminate | discriminate].
Qed.

(** The second alternative: month, separator, day, separator, year, with
    no word character before or after. *)
Lemma den_mdy_alternative (prev : option codeUnit) (w rest : jsString) :
  den (seqs [WordB; monthRe; sepRe; dayRe; sepRe; yearRe; WordB]) prev w rest
  <-> (exists m s1 d s2 y,
          w = m ++ [s1] ++ d ++ [s2] ++ y
          /\ isMonth m /\ isSep s1 = true /\ isDay d /\ isSep s2 = true
          /\ isShortOrLongYear y)
      /\ isWordAt prev = false /\ isWordAt (hd_error rest) = false.
Proof.
  cbn [seqs]. split.
  - intros H. cbn [den] in H.
    destruct H as (w0 & w1 & -> & (-> & B1) & (m & w2 & -> & M & (ws1 & w3 & -> & S1
                   & (d & w4 & -> & D & (ws2 & w5 & -> & S2
                   & (y & w6 & -> & Y & (-> & B2))))))).
    apply den_month in M. apply den_day in D. apply den_year in Y.
    apply den_sep in S1, S2.
    destruct S1 as (s1 & -> & Hs1), S2 as (s2 & -> & Hs2).
    destruct (month_nonempty m M) as [Hmd Hmne].
    destruct (year_nonempty y Y) as [Hyd Hyne].
    rewrite digits_last in B2 by assumption. apply xorb_word_r in B2.
    cbn [app] in B1. rewrite <- app_assoc in B1.
    rewrite digits_head in B1 by assumption. apply xorb_word_l in B1.
    split; [| split; assumption].
    exists m, s1, d, s2, y. rewrite app_nil_r. cbn [app]. auto 10.
  - intros ((m & s1 & d & s2 & y & -> & M & Hs1 & D & Hs2 & Y) & Hp & Hr).
    destruct (month_nonempty m M) as [Hmd Hmne].
    destruct (year_nonempty y Y) as [Hyd Hyne].
    cbn [den]. exists [], (m ++ [s1] ++ d ++ [s2] ++ y).
    split; [reflexivity |]. split.
    { split; [reflexivity |]. rewrite <- app_assoc.
      rewrite digits_head by assumption. now rewrite Hp. }
    exists m, ([s1] ++ d ++ [s2] ++ y). split; [reflexivity |].
    split; [now apply den_month |].
    exists [s1], (d ++ [s2] ++ y). split; [reflexivity |].
    split; [apply den_sep; eauto |].
    exists d, ([s2] ++ y). split; [reflexivity |].
    split; [now apply den_day |].
    exists [s2], y. split; [reflexivity |].
    split; [apply den_sep; eauto |].
    exists y, []. split; [now rewrite app_nil_r |].
    split; [now apply den_year |].
    split; [reflexivity |].
    rewrite digits_last by assumption. now rewrite Hr.
Qed.

(** C4, as the code has it: the date flag is set exactly when the password
    contains, with no word character right before or after, either four
    digits that write a year from 1900 to 2099, or a month (1 to 12), a
    separator [/] or [-], a day (1 to 31), a separator and a year of two or
    four digits: month first, then day. *)
Theorem date_flag_month_first (password : jsString) :
  date (detectPatterns constructor password) = true
  <-> hasYear password \/ hasMDY password.
Proof.
  unfold detectPatterns. cbn [date]. rewrite date_pattern_parts, test_den.
  unfold hasYear, hasMDY, standalone. split.
  - intros (pre & w & rest & -> & [H | H]).
    + apply den_year_alternative in H. destruct H as (Hy & Hp & Hr).
      left. exists pre, w, rest. auto.
    + apply den_mdy_alternative in H.
      destruct H as ((m & s1 & d & s2 & y & -> & M & Hs1 & D & Hs2 & Y) & Hp & Hr).
      right. exists pre, m, s1, d, s2, y, rest.
      rewrite <- !app_assoc. auto 10.
  - intros [(pre & y & post & -> & Hy & Hp & Hr)
           | (pre & m & s1 & d & s2 & y & post & -> & M & Hs1 & D & Hs2 & Y & Hp & Hr)].
    + exists pre, y, post. split; [reflexivity |]. left.
      apply den_year_alternative. auto.
    + exists pre, (m ++ [s1] ++ d ++ [s2] ++ y), post.
      split; [now rewrite <- !app_assoc |]. right.
      apply den_mdy_alternative. split; [| auto]. exists m, s1, d, s2, y. auto 10.
Qed.

Lemma date_flag_month_first_witness :
  date (detectPatterns constructor (lit "12/25/99")) = true.
Proof.
  apply (proj2 (date_flag_month_first (lit "12/25/99"))).
  right. exists [], (lit "12"), 47, (lit "25"), 47, (lit "99"), [].
  unfold isDay, isMonth, isShortOrLongYear, standalone.
  repeat split; try reflexivity; try (vm_compute; lia); try (vm_compute; discriminate).
Defined.

(** C4, as the claim has it, fails: 25/12/99 is day, month, year, and the
    date flag is not set. *)
Lemma date_flag_not_day_first :
  hasDMY (lit "25/12/99")
  /\ date (detectPatterns constructor (lit "25/12/99")) = false.
Proof.
  split; [| vm_compute; reflexivity].
  exists [], (lit "25"), 47, (lit "12"), 47, (lit "99"), [].
  unfold isDay, isMonth, isShortOrLongYear, standalone.
  repeat split; try reflexivity; try (vm_compute; lia); try (vm_compute; discriminate).
Qed.

End DateFacts.

(** ** Crack times of very long passwords *)

Section CrackOverflow.

Local Open Scope R_scope.

Lemma Rsum_repeat (f : nat -> R) (x n : nat) :
  Rsum (map f (repeat x n)) = INR n * f x.
Proof.
  induction n as [| n IH]; [simpl; lra |].
  cbn [repeat map]. change (Rsum (f x :: map f (repeat x n)))
    with (f x + Rsum (map f (repeat x n))).
  rewrite IH, S_INR. lra.
Qed.

Lemma log2_2 : log2 2 = 1.
Proof. unfold log2. pose proof ln2_pos as H. now field_simplify_eq; [| lra]. Qed.

Lemma veryLongPassword_shannon : shannonR veryLongPassword = 2304.
Proof.
  assert (Hne : veryLongPassword <> []) by (vm_compute; discriminate).
  rewrite (shannonR_bits veryLongPassword Hne).
  replace (List.length veryLongPassword) with 384%nat by (vm_compute; reflexivity).
  replace (map snd (fold_left bump (chars veryLongPassword) []))
    with (repeat 6%nat 64) by (vm_compute; reflexivity).
  rewrite Rsum_repeat. unfold bits.
  rewrite !INR_IZR_INZ. simpl Z.of_nat.
  rewrite <- log2_div by lra.
  replace (384 / 6) with (2 ^ 6) by lra.
  rewrite log2_pow by lra. rewrite log2_2. simpl INR. lra.
Qed.

Lemma pow_two_overflow (h : R) :
  2048 <= h -> Math_pow (Fin 2) (div (Fin h) (Fin 2)) = PInf.
Proof.
  intros Hh. rewrite div_fin by lra. rewrite pow_two.
  assert (Hbig : doubleRange <= Rpower 2 (h / 2)).
  { unfold doubleRange. rewrite <- Rpower_pow by lra.
    destruct (Req_dec_T (INR 1024) (h / 2)) as [<- | Hne]; [lra |].
    apply Rlt_le, Rpower_lt; [lra |].
    assert (INR 1024 = 1024) by (rewrite INR_IZR_INZ; reflexivity). lra. }
  unfold overflow. destruct (Rle_dec doubleRange (Rpower 2 (h / 2))); [reflexivity | lra].
Qed.

(** The table of section 4.4 gives a finite amount for every number of
    seconds. *)
Lemma specFormat_finite (s : R) :
  specFormat s = Instant \/ exists z u, specFormat s = Amount (ofZ z) u.
Proof.
  unfold specFormat.
  repeat match goal with
         | |- context [Rlt_dec ?a ?b] => destruct (Rlt_dec a b)
         end; first [now left | right; eauto].
Qed.

(** C6 fails on long passwords: the Shannon entropy of [veryLongPassword]
    is 2304 and [Math.pow(2, 1152)] is beyond the doubles, so the number of
    guesses is [Infinity] and the three crack times read [Infinity years],
    which the table of section 4.4 gives for no number of seconds. *)
Theorem crack_times_overflow_on_long_password (this : PasswordAnalyzer) :
  let r := performAnalysis this veryLongPassword in
  List.length veryLongPassword = 384%nat
  /\ shannon (entropy r) = Fin 2304
  /\ Math_pow (Fin 2) (div (shannon (entropy r)) (Fin 2)) = PInf
  /\ crackTimes r = {| online := Amount PInf years;
                       offline_cpu := Amount PInf years;
                       offline_gpu := Amount PInf years |}
  /\ (forall s : R, online (crackTimes r) <> specFormat s).
Proof.
  cbn zeta.
  assert (Hne : veryLongPassword <> []) by (vm_compute; discriminate).
  assert (Hsh : shannon (entropy (performAnalysis this veryLongPassword)) = Fin 2304).
  { cbn [performAnalysis entropy shannon calculateEntropy].
    rewrite (shannon_finite veryLongPassword Hne). now rewrite veryLongPassword_shannon. }
  assert (Hg : Math_pow (Fin 2) (div (Fin 2304) (Fin 2)) = PInf)
    by (apply pow_two_overflow; lra).
  assert (Hc : crackTimes (performAnalysis this veryLongPassword)
               = {| online := Amount PInf years;
                    offline_cpu := Amount PInf years;
                    offline_gpu := Amount PInf years |}).
  { cbn [performAnalysis crackTimes]. unfold estimateCrackTimes.
    cbn [performAnalysis entropy] in Hsh. rewrite Hsh, Hg.
    rewrite !formatTime_infinity by lra. reflexivity. }
  split; [vm_compute; reflexivity |]. split; [exact Hsh |].
  split; [rewrite Hsh; exact Hg |]. split; [exact Hc |].
  intros s. rewrite Hc. cbn [online].
  destruct (specFormat_finite s) as [-> | (z & u & ->)]; discriminate.
Qed.

End CrackOverflow.

(** ** A character beyond the basic plane *)

Section AstralCharacter.

Local Open Scope R_scope.

(** C9 fails on a character that takes two code units: the loop and the
    set of the code see one character in [grinningFace], while
    [password.length] is 2, so the uniqueness is 50 and the Shannon
    entropy 1 where the claim says 100 and 0. *)
Theorem astral_character_metrics (this : PasswordAnalyzer) :
  let r := performAnalysis this grinningFace in
  chars grinningFace = [grinningFace]
  /\ setSize grinningFace = 1%nat
  /\ List.length grinningFace = 2%nat
  /\ shannon (entropy r) = Fin 1
  /\ uniqueness (entropy r) = Fin 50.
Proof.
  cbn zeta.
  assert (Hne : grinningFace <> []) by discriminate.
  split; [vm_compute; reflexivity |]. split; [vm_compute; reflexivity |].
  split; [reflexivity |]. split.
  - cbn [performAnalysis entropy shannon calculateEntropy].
    rewrite (shannon_finite grinningFace Hne). f_equal.
    rewrite (shannonR_bits grinningFace Hne).
    replace (map snd (fold_left bump (chars grinningFace) [])) with [1%nat]
      by (vm_compute; reflexivity).
    unfold bits, grinningFace. cbn [List.length map Rsum fold_right].
    rewrite !INR_IZR_INZ. simpl Z.of_nat. rewrite log2_1, log2_2. lra.
  - cbn [performAnalysis entropy uniqueness calculateEntropy].
    rewrite (uniqueness_finite grinningFace Hne). f_equal.
    replace (setSize grinningFace) with 1%nat by (vm_compute; reflexivity).
    unfold grinningFace. cbn [List.length]. rewrite !INR_IZR_INZ. simpl Z.of_nat. lra.
Qed.

End AstralCharacter.

(** * Further properties of the class *)

(** ** Levels and colours *)

Section Levels.

Local Open Scope R_scope.

Lemma ge_fin (a b : R) : ge (Fin a) (Fin b) = true <-> b <= a.
Proof.
  unfold ge. cbn [lt]. destruct (Rlt_dec a b); simpl; split; intros; try easy; lra.
Qed.

Lemma ge_fin_false (a b : R) : ge (Fin a) (Fin b) = false <-> a < b.
Proof.
  unfold ge. cbn [lt]. destruct (Rlt_dec a b); simpl; split; intros; try easy; lra.
Qed.

Lemma level_of_finite (s : R) :
  getStrengthLevel (Fin s)
  = if Rle_dec 0.8 s then "Very Strong"%string
    else if Rle_dec 0.6 s then "Strong"%string
    else if Rle_dec 0.4 s then "Moderate"%string
    else if Rle_dec 0.2 s then "Weak"%string
    else "Very Weak"%string.
Proof.
  unfold getStrengthLevel, ge. cbn [lt].
  repeat match goal with
         | |- context [Rlt_dec ?a ?b] => destruct (Rlt_dec a b)
         | |- context [Rle_dec ?a ?b] => destruct (Rle_dec a b)
         end; simpl; try reflexivity; lra.
Qed.

(** The levels of a finite score are bands with inclusive lower bounds;
    [NaN] is rated Very Weak; every number gets a level that has a colour. *)
Theorem strength_level_bands :
  (forall s : R,
      (getStrengthLevel (Fin s) = "Very Strong"%string <-> 0.8 <= s)
      /\ (getStrengthLevel (Fin s) = "Strong"%string <-> 0.6 <= s < 0.8)
      /\ (getStrengthLevel (Fin s) = "Moderate"%string <-> 0.4 <= s < 0.6)
      /\ (getStrengthLevel (Fin s) = "Weak"%string <-> 0.2 <= s < 0.4)
      /\ (getStrengthLevel (Fin s) = "Very Weak"%string <-> s < 0.2))
  /\ getStrengthLevel NaN = "Very Weak"%string
  /\ (forall x : number, exists c, getStrengthColor (getStrengthLevel x) = Some c).
Proof.
  split; [| split].
  - intros s. rewrite level_of_finite.
    destruct (Rle_dec 0.8 s); [| destruct (Rle_dec 0.6 s);
      [| destruct (Rle_dec 0.4 s); [| destruct (Rle_dec 0.2 s)]]];
      repeat split; intros; try discriminate; try reflexivity; lra.
  - reflexivity.
  - intros x. unfold getStrengthLevel.
    destruct (ge x (Fin 0.8)); [eexists; reflexivity |].
    destruct (ge x (Fin 0.6)); [eexists; reflexivity |].
    destruct (ge x (Fin 0.4)); [eexists; reflexivity |].
    destruct (ge x (Fin 0.2)); eexists; reflexivity.
Qed.

End Levels.

(** ** The score on real metrics *)

Section ScoreValue.

Local Open Scope R_scope.

Lemma nistTerm_spec (x : number) :
  x = PInf \/ (exists v, x = Fin v) ->
  Math_min (div x (Fin 60)) (Fin 1) = Fin (nistTerm x) /\ nistTerm x <= 1.
Proof.
  intros [-> | [v ->]].
  - rewrite div_pinf by lra. split; [reflexivity | simpl; lra].
  - rewrite div_fin by lra. split; [reflexivity | apply Rmin_r].
Qed.

(** The score of [calculateStrength] when the metrics are finite (the NIST
    entropy may be infinite). *)
Lemma strength_real (password : jsString) (e : EntropyMetrics) (f : PatternFlags)
      (h u : R) :
  shannon e = Fin h ->
  uniqueness e = Fin u ->
  nist e = PInf \/ (exists v, nist e = Fin v) ->
  score (calculateStrength password e f)
  = Fin (scoreR (List.length password) h (charset e) u (nistTerm (nist e))
                (count f) (dictionary f)).
Proof.
  intros Hh Hu Hn. unfold calculateStrength, scoreR. cbn [score].
  rewrite Hh, Hu. unfold ofNat. rewrite !div_fin by lra.
  destruct (nistTerm_spec (nist e) Hn) as [-> _].
  cbn [Math_min mul add sub neg Math_max].
  destruct (dictionary f); reflexivity.
Qed.

Lemma performAnalysis_score_real (this : PasswordAnalyzer) (password : jsString) :
  password <> [] ->
  score (strength (performAnalysis this password))
  = Fin (scoreR (List.length password) (shannonR password)
                (charset (calculateEntropy password))
                (INR (setSize password) / INR (List.length password) * 100)
                (nistTerm (nist (calculateEntropy password)))
                (count (detectPatterns this password))
                (dictionary (detectPatterns this password))).
Proof.
  intros Hp. unfold performAnalysis. cbn [strength].
  apply strength_real.
  - cbn [shannon calculateEntropy]. now apply shannon_finite.
  - cbn [uniqueness calculateEntropy]. now apply uniqueness_finite.
  - destruct (nist_cases password Hp) as [[Hn _] | [Hn _]];
      [left | right; eexists]; exact Hn.
Qed.

Lemma nistTerm_le (password : jsString) :
  password <> [] -> nistTerm (nist (calculateEntropy password)) <= 1.
Proof.
  intros Hp. apply nistTerm_spec.
  destruct (nist_cases password Hp) as [[Hn _] | [Hn _]];
    [left | right; eexists]; exact Hn.
Qed.

Lemma level_of_score (this : PasswordAnalyzer) (password : jsString) :
  level (strength (performAnalysis this password))
  = getStrengthLevel (score (strength (performAnalysis this password))).
Proof. reflexivity. Qed.

(** A password of the common list is never rated above Weak: its score is
    at most 0.3. *)
Theorem common_password_is_weak (this : PasswordAnalyzer) (password : jsString) :
  password <> [] ->
  dictionary (patterns (performAnalysis this password)) = true ->
  exists s,
    score (strength (performAnalysis this password)) = Fin s
    /\ 0 <= s <= 0.3
    /\ (level (strength (performAnalysis this password)) = "Weak"%string
        \/ level (strength (performAnalysis this password)) = "Very Weak"%string).
Proof.
  intros Hp Hd. rewrite level_of_score, (performAnalysis_score_real this password Hp).
  cbn [performAnalysis patterns] in Hd. rewrite Hd.
  eexists. split; [reflexivity |].
  pose proof (uniqueness_range password Hp) as [_ Hu].
  pose proof (charset_le password) as Hc. apply le_INR in Hc.
  replace (INR 94) with 94 in Hc by (simpl; lra).
  pose proof (nistTerm_le password Hp) as Hn.
  pose proof (pos_INR (count (detectPatterns this password))) as Hcnt.
  unfold scoreR. cbn zeta.
  set (S := 0 + _ + _ + _ + _ + _ + 0.10).
  assert (HS : S <= 1).
  { unfold S.
    pose proof (Rmin_r (INR (List.length password) / 20) 1).
    pose proof (Rmin_r (shannonR password / 50) 1). lra. }
  set (m := Rmax 0 _).
  assert (Hm : 0 <= m <= 1).
  { unfold m. split; [apply Rmax_l | apply Rmax_lub; lra]. }
  assert (Hs : 0 <= m * 0.3 <= 0.3) by lra.
  split; [exact Hs |].
  rewrite level_of_finite.
  destruct (Rle_dec 0.8 (m * 0.3)); [lra |].
  destruct (Rle_dec 0.6 (m * 0.3)); [lra |].
  destruct (Rle_dec 0.4 (m * 0.3)); [lra |].
  destruct (Rle_dec 0.2 (m * 0.3)); [left | right]; reflexivity.
Qed.

Lemma common_password_is_weak_witness :
  exists s,
    score (strength (performAnalysis constructor (lit "Password"))) = Fin s
    /\ 0 <= s <= 0.3
    /\ (level (strength (performAnalysis constructor (lit "Password"))) = "Weak"%string
        \/ level (strength (performAnalysis constructor (lit "Password")))
           = "Very Weak"%string).
Proof.
  apply (common_password_is_weak constructor (lit "Password")).
  - discriminate.
  - vm_compute. reflexivity.
Defined.

End ScoreValue.

(** ** Bounds of the Shannon entropy *)

Section ShannonBounds.

Local Open Scope R_scope.

Lemma bump_sum (freq : freqTable) (x : jsString) :
  list_sum (map snd (bump freq x)) = S (list_sum (map snd freq)).
Proof.
  induction freq as [| [k n] rest IH]; simpl; [reflexivity |].
  destruct (Str.eqb k x); simpl; [reflexivity | rewrite IH; lia].
Qed.

Lemma freq_sum (cs : list jsString) (freq : freqTable) :
  list_sum (map snd (fold_left bump cs freq))
  = (List.length cs + list_sum (map snd freq))%nat.
Proof.
  revert freq. induction cs as [| c cs IH]; intros freq; simpl; [reflexivity |].
  rewrite IH, bump_sum. lia.
Qed.

Lemma list_sum_bound (l : list nat) (n : nat) : In n l -> (n <= list_sum l)%nat.
Proof.
  induction l as [| a l IH]; intros H; [destruct H |].
  simpl. destruct H as [-> | H]; [lia | apply IH in H; lia].
Qed.

(** The counts of the characters of a password are between 1 and its
    length, and add up to at most its length. *)
Lemma counts_range (password : jsString) :
  let counts := map snd (fold_left bump (chars password) []) in
  (list_sum counts <= List.length password)%nat
  /\ Forall (fun n => (1 <= n <= List.length password)%nat) counts.
Proof.
  cbn zeta.
  assert (Hsum : (list_sum (map snd (fold_left bump (chars password) []))
                  <= List.length password)%nat).
  { rewrite freq_sum. simpl. pose proof (chars_length password). lia. }
  split; [exact Hsum |].
  pose proof (freq_positive (chars password) [] (Forall_nil _)) as Hpos.
  rewrite Forall_forall in *. intros n Hn.
  pose proof (Hpos n Hn). pose proof (list_sum_bound _ n Hn). lia.
Qed.

Lemma bits_range (len : R) (n : nat) :
  (1 <= n)%nat -> INR n <= len -> 0 <= bits len n <= INR n * log2 len.
Proof.
  intros Hn Hle. unfold bits.
  assert (H1 : 1 <= INR n) by (replace 1 with (INR 1) by reflexivity; now apply le_INR).
  pose proof (log2_nonneg (INR n) H1) as Hlog.
  assert (Hmono : log2 (INR n) <= log2 len) by (apply log2_le; lra).
  split; nra.
Qed.

Lemma Rsum_bits_range (len : R) (m : nat) (counts : list nat) :
  INR m <= len ->
  Forall (fun n => (1 <= n <= m)%nat) counts ->
  0 <= Rsum (map (bits len) counts) <= INR (list_sum counts) * log2 len.
Proof.
  intros Hm H. induction H as [| n counts [Hn1 Hn2] _ IH]; simpl.
  - lra.
  - assert (Hn : INR n <= len) by (apply le_INR in Hn2; lra).
    pose proof (bits_range len n Hn1 Hn). rewrite plus_INR. lra.
Qed.

Lemma shannonR_range (password : jsString) :
  password <> [] ->
  0 <= shannonR password
  <= INR (List.length password) * log2 (INR (List.length password)).
Proof.
  intros Hp. rewrite (shannonR_bits password Hp).
  destruct (counts_range password) as [Hsum Hall].
  pose proof (Rsum_bits_range (INR (List.length password)) (List.length password)
                _ (Rle_refl _) Hall) as [H0 H1].
  split; [exact H0 |].
  eapply Rle_trans; [exact H1 |].
  apply Rmult_le_compat_r.
  - apply log2_nonneg. replace 1 with (INR 1) by reflexivity. apply le_INR.
    destruct password; [congruence | simpl; lia].
  - now apply le_INR.
Qed.

(** The Shannon entropy of a report is between 0 and
    [length * log2 length]. *)
Theorem shannon_bounds (password : jsString) :
  password <> [] ->
  exists h,
    calculateShannonEntropy password = Fin h
    /\ 0 <= h <= INR (List.length password) * log2 (INR (List.length password)).
Proof.
  intros Hp. exists (shannonR password).
  split; [now apply shannon_finite | now apply shannonR_range].
Qed.

Lemma shannon_bounds_witness :
  exists h,
    calculateShannonEntropy (lit "qwerty123") = Fin h
    /\ 0 <= h <= INR (List.length (lit "qwerty123"))
                 * log2 (INR (List.length (lit "qwerty123"))).
Proof. apply (shannon_bounds (lit "qwerty123")). discriminate. Defined.




End ShannonBounds.

(** ** One character repeated *)

Section OneCharacter.

Local Open Scope R_scope.

Lemma surrogates_disjoint (a : codeUnit) :
  isHighSurrogate a && isLowSurrogate a = false.
Proof.
  unfold isHighSurrogate, isLowSurrogate, inRange.
  destruct (N.leb_spec 55296 a), (N.leb_spec a 56319), (N.leb_spec 56320 a),
    (N.leb_spec a 57343); simpl; try reflexivity; lia.
Qed.

Lemma chars_repeat (a : codeUnit) (n : nat) : chars (repeat a n) = repeat [a] n.
Proof.
  induction n as [| n IH]; [reflexivity |].
  destruct n as [| n]; [reflexivity |].
  change (repeat a (S (S n))) with (a :: a :: repeat a n).
  rewrite chars_single by apply surrogates_disjoint.
  change (a :: repeat a n) with (repeat a (S n)). rewrite IH. reflexivity.
Qed.

Lemma eqb_refl (a : jsString) : Str.eqb a a = true.
Proof. unfold Str.eqb. destruct (list_eq_dec N.eq_dec a a); congruence. Qed.

Lemma freq_repeat (k : jsString) (m n : nat) :
  fold_left bump (repeat k m) [(k, n)] = [(k, (n + m)%nat)].
Proof.
  revert n. induction m as [| m IH]; intros n; simpl.
  - now rewrite Nat.add_0_r.
  - rewrite eqb_refl, IH. do 2 f_equal. lia.
Qed.

Lemma nodup_repeat (k : jsString) (n : nat) :
  nodup (list_eq_dec N.eq_dec) (repeat k (S n)) = [k].
Proof.
  induction n as [| n IH]; [reflexivity |].
  change (repeat k (S (S n))) with (k :: repeat k (S n)).
  cbn [nodup]. destruct (in_dec (list_eq_dec N.eq_dec) k (repeat k (S n))) as [_ | H].
  - exact IH.
  - exfalso. apply H. now left.
Qed.

Lemma shannonR_repeat (a : codeUnit) (n : nat) : shannonR (repeat a (S n)) = 0.
Proof.
  unfold shannonR. rewrite chars_repeat, repeat_length.
  change (repeat [a] (S n)) with ([a] :: repeat [a] n). cbn [fold_left bump].
  rewrite freq_repeat. unfold entropyLoop. cbn [map snd fold_left].
  replace (1 + n)%nat with (S n) by lia.
  assert (H : INR (S n) / INR (S n) = 1).
  { apply Rinv_r. apply not_0_INR. discriminate. }
  rewrite H, log2_1. lra.
Qed.

(** A password that repeats one code unit, however long, has Shannon
    entropy 0, a uniqueness of [100 / length], and the crack time [Instant]
    in the three scenarios. *)
Theorem one_character_repeated (this : PasswordAnalyzer) (a : codeUnit) (n : nat) :
  let r := performAnalysis this (repeat a (S n)) in
  shannon (entropy r) = Fin 0
  /\ uniqueness (entropy r) = Fin (1 / INR (S n) * 100)
  /\ crackTimes r
     = {| online := Instant; offline_cpu := Instant; offline_gpu := Instant |}.
Proof.
  cbn zeta.
  assert (Hne : repeat a (S n) <> []) by discriminate.
  assert (Hsh : calculateShannonEntropy (repeat a (S n)) = Fin 0).
  { rewrite shannon_finite by exact Hne. now rewrite shannonR_repeat. }
  split; [exact Hsh |]. split.
  - cbn [performAnalysis entropy uniqueness calculateEntropy].
    rewrite uniqueness_finite by exact Hne.
    unfold setSize. rewrite chars_repeat, nodup_repeat, repeat_length. reflexivity.
  - cbn [performAnalysis crackTimes]. unfold estimateCrackTimes.
    cbn [shannon calculateEntropy]. rewrite Hsh, pow_two_zero.
    rewrite !div_fin by lra. rewrite !formatTime_instant by lra. reflexivity.
Qed.

End OneCharacter.

(** ** Crack times: order and amounts *)

Section CrackOrder.

Local Open Scope R_scope.

Lemma formatTime_Instant_iff (s : R) : formatTime (Fin s) = Instant <-> s < 1.
Proof.
  rewrite formatTime_spec. unfold specFormat.
  destruct (Rlt_dec s 1); [tauto |].
  split; [| lra].
  repeat match goal with
         | |- context [Rlt_dec ?a ?b] => destruct (Rlt_dec a b)
         end; discriminate.
Qed.

Lemma formatTime_of_guesses (g : number) :
  g = PInf \/ (exists x, g = Fin x /\ 0 < x) ->
  forall k : R, 0 < k ->
    (formatTime (div g (Fin k)) = Instant
     <-> exists x, g = Fin x /\ x / k < 1).
Proof.
  intros [-> | (x & -> & Hx)] k Hk.
  - rewrite formatTime_infinity by exact Hk. split; [discriminate |].
    intros (x & H & _). discriminate H.
  - rewrite div_fin by lra. rewrite formatTime_Instant_iff. split.
    + intros H. exists x. auto.
    + intros (y & E & H). injection E as <-. exact H.
Qed.

Lemma guesses_cases (h : R) :
  overflow (Rpower 2 (h / 2)) = PInf
  \/ exists x, overflow (Rpower 2 (h / 2)) = Fin x /\ 0 < x.
Proof.
  assert (Hpos : 0 < Rpower 2 (h / 2)) by (unfold Rpower; apply exp_pos).
  destruct (overflow_cases _ Hpos) as [[-> _] | [-> _]]; [now left |].
  right. eexists. split; [reflexivity | exact Hpos].
Qed.

(** The faster the attack, the shorter the time: when the online attack is
    [Instant] so is the offline CPU attack, and when that one is [Instant]
    so is the GPU attack. *)
Theorem crack_times_ordered (password : jsString) (h : R) (n : number) (c : nat)
        (u : number) :
  let t := estimateCrackTimes password
             {| shannon := Fin h; nist := n; charset := c; uniqueness := u |} in
  (online t = Instant -> offline_cpu t = Instant)
  /\ (offline_cpu t = Instant -> offline_gpu t = Instant).
Proof.
  cbn zeta. unfold estimateCrackTimes. cbn [shannon online offline_cpu offline_gpu].
  rewrite div_fin by lra. rewrite pow_two.
  pose proof (guesses_cases h) as Hg.
  split; intros H.
  - apply (formatTime_of_guesses _ Hg) in H; [| lra].
    apply (formatTime_of_guesses _ Hg); [lra |].
    destruct H as (x & E & Hx). exists x. split; [exact E |].
    destruct Hg as [Hg | (y & Hg & Hy)]; [congruence |].
    assert (x = y) by congruence. subst y. lra.
  - apply (formatTime_of_guesses _ Hg) in H; [| lra].
    apply (formatTime_of_guesses _ Hg); [lra |].
    destruct H as (x & E & Hx). exists x. split; [exact E |].
    destruct Hg as [Hg | (y & Hg & Hy)]; [congruence |].
    assert (x = y) by congruence. subst y. lra.
Qed.

Lemma crack_times_ordered_witness :
  (online (estimateCrackTimes (lit "a")
             {| shannon := Fin 0; nist := NaN; charset := 26; uniqueness := NaN |})
   = Instant ->
   offline_cpu (estimateCrackTimes (lit "a")
                  {| shannon := Fin 0; nist := NaN; charset := 26; uniqueness := NaN |})
   = Instant)
  /\ (offline_cpu (estimateCrackTimes (lit "a")
                     {| shannon := Fin 0; nist := NaN; charset := 26;
                        uniqueness := NaN |})
      = Instant ->
      offline_gpu (estimateCrackTimes (lit "a")
                     {| shannon := Fin 0; nist := NaN; charset := 26;
                        uniqueness := NaN |})
      = Instant).
Proof. exact (crack_times_ordered (lit "a") 0 NaN 26 NaN). Defined.

(** From one second on, [formatTime] shows an amount of at least 1, and of
    at most 60 seconds or minutes, 24 hours, 365 days: the amount may reach
    the size of the next unit (59.5 s is shown as 60 seconds), and is never
    0. *)
Theorem formatTime_amount_range (s : R) :
  1 <= s ->
  exists n u,
    formatTime (Fin s) = Amount (ofZ n) u
    /\ (1 <= n)%Z
    /\ match u with
       | seconds | minutes => (n <= 60)%Z
       | hours => (n <= 24)%Z
       | days => (n <= 365)%Z
       | years => True
       end.
Proof.
  intros Hs. rewrite formatTime_spec. unfold specFormat.
  destruct (Rlt_dec s 1); [lra |].
  destruct (Rlt_dec s 60);
    [| destruct (Rlt_dec s 3600);
       [| destruct (Rlt_dec s 86400); [| destruct (Rlt_dec s 31536000)]]];
    eexists; eexists; (split; [reflexivity |]); unfold roundZ.
  - pose proof (floor_bounds (s + / 2) 1 60). split; apply H; lra.
  - pose proof (floor_bounds (s / 60 + / 2) 1 60). split; apply H; lra.
  - pose proof (floor_bounds (s / 3600 + / 2) 1 24). split; apply H; lra.
  - pose proof (floor_bounds (s / 86400 + / 2) 1 365). split; apply H; lra.
  - split; [| exact I].
    pose proof (floor_spec (s / 31536000 + / 2)) as [_ H].
    apply Z.lt_succ_r, lt_IZR. rewrite succ_IZR. lra.
Qed.

Lemma formatTime_amount_range_witness :
  exists n u,
    formatTime (Fin 59.5) = Amount (ofZ n) u
    /\ (1 <= n)%Z
    /\ match u with
       | seconds | minutes => (n <= 60)%Z
       | hours => (n <= 24)%Z
       | days => (n <= 365)%Z
       | years => True
       end.
Proof. apply (formatTime_amount_range 59.5). lra. Defined.

End CrackOrder.

(** ** What the detectors find *)

Section Detectors.

Import DateSpec.

(** The repeated flag is set exactly when some code unit other than a line
    terminator occurs three times in a row. *)
Theorem repeated_flag_meaning (password : jsString) :
  repeated (detectPatterns constructor password) = true
  <-> exists pre a post,
        password = pre ++ [a; a; a] ++ post /\ isLineTerminator a = false.
Proof.
  unfold detectPatterns. cbn [repeated].
  change (CommonPatterns.repeated (commonPatterns constructor)) with (DotBackref 2).
  rewrite test_den. cbn [den]. split.
  - intros (pre & w & rest & -> & (a & m & Hm & -> & Ha)).
    destruct m as [| [| m]]; [lia | lia |].
    exists pre, a, (repeat a m ++ rest). split; [reflexivity | exact Ha].
  - intros (pre & a & post & -> & Ha).
    exists pre, [a; a; a], post. split; [reflexivity |].
    exists a, 2%nat. repeat split; [lia | exact Ha].
Qed.

Lemma den_four_digits (prev : option codeUnit) (w rest : jsString) :
  List.length w = 4%nat -> allDigits w = true ->
  isWordAt prev = false -> isWordAt (hd_error rest) = false ->
  den (seqs [WordB; digit; digit; digit; digit; WordB]) prev w rest.
Proof.
  intros Hlen Hd Hp Hr.
  destruct w as [| a [| b [| c [| d [| e t]]]]]; try discriminate Hlen.
  rewrite !DateFacts.allDigits_cons in Hd.
  assert (Ha : isWord a = true)
    by (apply DateFacts.isDigit_word, DateFacts.isDigit_spec; tauto).
  assert (Hdw : isWord d = true)
    by (apply DateFacts.isDigit_word, DateFacts.isDigit_spec; tauto).
  cbn [seqs den]. exists [], [a; b; c; d]. split; [reflexivity |]. split.
  { split; [reflexivity |]. cbn [app hd_error isWordAt]. now rewrite Hp, Ha. }
  exists [a], [b; c; d]. split; [reflexivity |].
  split; [eexists; split; [reflexivity | apply DateFacts.isDigit_spec; tauto] |].
  exists [b], [c; d]. split; [reflexivity |].
  split; [eexists; split; [reflexivity | apply DateFacts.isDigit_spec; tauto] |].
  exists [c], [d]. split; [reflexivity |].
  split; [eexists; split; [reflexivity | apply DateFacts.isDigit_spec; tauto] |].
  exists [d], []. split; [reflexivity |].
  split; [eexists; split; [reflexivity | apply DateFacts.isDigit_spec; tauto] |].
  split; [reflexivity |]. cbn [lastUnit fold_left app isWordAt].
  now rewrite Hdw, Hr.
Qed.

(** A year from 1900 to 2099 that stands alone sets two flags, date and
    personal, so it costs the pattern penalty twice. *)
Theorem year_is_flagged_twice (password : jsString) :
  hasYear password ->
  date (detectPatterns constructor password) = true
  /\ personal (detectPatterns constructor password) = true
  /\ (2 <= count (detectPatterns constructor password))%nat.
Proof.
  intros (pre & y & post & -> & (Hlen & Hd & Hv) & Hp & Hr).
  assert (Hdate : date (detectPatterns constructor (pre ++ y ++ post)) = true).
  { unfold detectPatterns. cbn [date].
    rewrite DateFacts.date_pattern_parts, test_den.
    exists pre, y, post. split; [reflexivity |]. left.
    apply DateFacts.den_year_alternative.
    split; [split; [exact Hlen | split; [exact Hd | exact Hv]] | split; assumption]. }
  assert (Hpers : personal (detectPatterns constructor (pre ++ y ++ post)) = true).
  { unfold detectPatterns. cbn [personal]. unfold detectPersonalInfo.
    cbn [existsb].
    match goal with
    | |- _ || (_ || (test ?r ?s || false)) = true =>
        assert (H3 : test r s = true)
    end.
    { apply test_den. exists pre, y, post. split; [reflexivity |].
      now apply den_four_digits. }
    rewrite H3. now rewrite !orb_true_r. }
  split; [exact Hdate |]. split; [exact Hpers |].
  rewrite detectPatterns_count. unfold trueFlags. rewrite Hdate, Hpers.
  simpl Nat.b2n. lia.
Qed.

Lemma year_is_flagged_twice_witness :
  date (detectPatterns constructor (lit "born 1999")) = true
  /\ personal (detectPatterns constructor (lit "born 1999")) = true
  /\ (2 <= count (detectPatterns constructor (lit "born 1999")))%nat.
Proof.
  apply (year_is_flagged_twice (lit "born 1999")).
  exists (lit "born "), (lit "1999"), [].
  unfold isYear19or20, standalone.
  repeat split; try reflexivity; try (vm_compute; lia); try (vm_compute; discriminate).
Defined.

End Detectors.

(** ** Letter case *)

Section LetterCase.

Local Open Scope N_scope.

Ltac by_cases u :=
  unfold canonicalize, lowerUnit, isWord, isAlnum, isLower, isUpper, isDigit, inRange;
  destruct (N.leb_spec 97 u), (N.leb_spec u 122); cbn [andb orb negb] in *;
  repeat (match goal with
          | |- context [?a <=? ?b] => destruct (N.leb_spec a b)
          | |- context [?a =? ?b] => destruct (N.eqb_spec a b)
          end; cbn [andb orb negb] in * );
  try reflexivity; try lia; try (exfalso; lia).

Lemma canonicalize_idem (u : codeUnit) :
  canonicalize (canonicalize u) = canonicalize u.
Proof. by_cases u. Qed.

Lemma inRange_canonicalize (lo hi u : codeUnit) :
  hi < 65 \/ (90 < lo /\ hi < 97) \/ 122 < lo ->
  inRange lo hi (canonicalize u) = inRange lo hi u.
Proof. intros H. by_cases u. Qed.

Lemma eqb_canonicalize (c u : codeUnit) :
  c < 65 \/ (90 < c /\ c < 97) \/ 122 < c ->
  (c =? canonicalize u) = (c =? u).
Proof. intros H. by_cases u. Qed.

Lemma isWord_canonicalize (u : codeUnit) : isWord (canonicalize u) = isWord u.
Proof. by_cases u. Qed.

Lemma isWordAt_canonicalize (o : option codeUnit) :
  isWordAt (option_map canonicalize o) = isWordAt o.
Proof. destruct o; [apply isWord_canonicalize | reflexivity]. Qed.

Lemma lowerUnit_canonicalize (u : codeUnit) : lowerUnit (canonicalize u) = lowerUnit u.
Proof. by_cases u. Qed.

(** A case-blind pattern matches a string and its canonical form alike. *)
Lemma matchK_caseBlind (r : regex) :
  caseBlind r ->
  forall (prev : option codeUnit) (s : jsString)
         (k k' : option codeUnit -> jsString -> bool),
    (forall q t, k (option_map canonicalize q) (map canonicalize t) = k' q t) ->
    matchK r (option_map canonicalize prev) (map canonicalize s) k
    = matchK r prev s k'.
Proof.
  induction r as [f | | r1 IH1 r2 IH2 | r1 IH1 r2 IH2 | | n];
    intros Hb prev s k k' Hk; cbn [caseBlind] in Hb.
  - destruct s as [| u t]; [reflexivity |]. cbn [map matchK].
    rewrite Hb. f_equal. apply (Hk (Some u) t).
  - apply Hk.
  - destruct Hb as [Hb1 Hb2]. cbn [matchK]. apply IH1; [exact Hb1 |].
    intros q t. now apply IH2.
  - destruct Hb as [Hb1 Hb2]. cbn [matchK].
    rewrite (IH1 Hb1 prev s k k' Hk), (IH2 Hb2 prev s k k' Hk). reflexivity.
  - cbn [matchK]. rewrite isWordAt_canonicalize.
    replace (hd_error (map canonicalize s))
      with (option_map canonicalize (hd_error s)) by (destruct s; reflexivity).
    rewrite isWordAt_canonicalize. f_equal. apply Hk.
  - destruct Hb.
Qed.

Lemma searchFrom_caseBlind (r : regex) (s : jsString) :
  caseBlind r ->
  forall prev : option codeUnit,
    searchFrom r (option_map canonicalize prev) (map canonicalize s)
    = searchFrom r prev s.
Proof.
  intros Hb. induction s as [| u t IH]; intros prev; cbn [map searchFrom].
  - pose proof (matchK_caseBlind r Hb prev [] (fun _ _ => true) (fun _ _ => true)
                  (fun _ _ => eq_refl)) as H.
    cbn [map] in H. now rewrite H.
  - pose proof (matchK_caseBlind r Hb prev (u :: t) (fun _ _ => true)
                  (fun _ _ => true) (fun _ _ => eq_refl)) as H.
    cbn [map] in H. rewrite H. f_equal. apply (IH (Some u)).
Qed.

Lemma test_caseBlind (r : regex) (s s' : jsString) :
  caseBlind r ->
  map canonicalize s = map canonicalize s' ->
  test r s = test r s'.
Proof.
  intros Hb E. unfold test.
  rewrite <- (searchFrom_caseBlind r s Hb None), <- (searchFrom_caseBlind r s' Hb None).
  now rewrite E.
Qed.

Lemma caseBlind_chrI (a : ascii) : caseBlind (chrI a).
Proof. intros u. cbn beta. now rewrite canonicalize_idem. Qed.

Lemma caseBlind_oneOfI (m : string) : caseBlind (oneOfI m).
Proof.
  intros u. cbn beta. now rewrite canonicalize_idem.
Qed.

Lemma caseBlind_digit : caseBlind digit.
Proof. intros u. apply inRange_canonicalize. lia. Qed.

Lemma caseBlind_seqs (rs : list regex) : Forall caseBlind rs -> caseBlind (seqs rs).
Proof.
  induction 1 as [| r rs Hr Hrs IH]; [exact I |].
  destruct rs as [| r' rs']; [exact Hr |]. split; [exact Hr | exact IH].
Qed.

Lemma caseBlind_alts (rs : list regex) :
  forall r, caseBlind r -> Forall caseBlind rs -> caseBlind (alts r rs).
Proof.
  induction rs as [| r' rs IH]; intros r Hr H; [exact Hr |].
  inversion H; subst. split; [exact Hr | now apply IH].
Qed.

Lemma caseBlind_wordI (m : string) : caseBlind (wordI m).
Proof.
  unfold wordI. apply caseBlind_seqs.
  induction (list_ascii_of_string m) as [| a l IH]; constructor;
    [apply caseBlind_chrI | exact IH].
Qed.

Lemma Forall_wordI (ms : list string) : Forall caseBlind (map wordI ms).
Proof. induction ms; constructor; [apply caseBlind_wordI | assumption]. Qed.

Lemma caseBlind_keyboard :
  caseBlind (CommonPatterns.keyboard (commonPatterns constructor)).
Proof.
  apply caseBlind_alts; [apply caseBlind_wordI |].
  apply (Forall_wordI ["asdf"; "zxcv"; "1234"; "abcd"]%string).
Qed.

Lemma caseBlind_sequential :
  caseBlind (CommonPatterns.sequential (commonPatterns constructor)).
Proof.
  apply caseBlind_alts; [apply caseBlind_wordI | apply Forall_wordI].
Qed.

Lemma caseBlind_leet : caseBlind (CommonPatterns.leet (commonPatterns constructor)).
Proof.
  apply caseBlind_seqs.
  repeat (apply Forall_cons; [apply caseBlind_oneOfI |]). constructor.
Qed.

Lemma eqb_canonicalize_l (c u : codeUnit) :
  c < 65 \/ (90 < c /\ c < 97) \/ 122 < c ->
  (canonicalize u =? c) = (u =? c).
Proof. intros H. rewrite !(N.eqb_sym _ c). now apply eqb_canonicalize. Qed.

(** A class of the date pattern: digits and separators only. *)
Ltac blind_class :=
  intros u; cbn beta; cbn [existsb lit map list_ascii_of_string]; unfold isDigit;
  rewrite ?eqb_canonicalize_l, ?eqb_canonicalize, ?inRange_canonicalize
    by (vm_compute; intuition congruence);
  reflexivity.

Lemma caseBlind_date : caseBlind (CommonPatterns.date (commonPatterns constructor)).
Proof.
  cbn [CommonPatterns.date commonPatterns constructor caseBlind seqs Opt chr range
       oneOf digit word map list_ascii_of_string].
  repeat split; blind_class.
Qed.

Lemma detectPersonalInfo_case (s s' : jsString) :
  map canonicalize s = map canonicalize s' ->
  detectPersonalInfo s = detectPersonalInfo s'.
Proof.
  intros E. unfold detectPersonalInfo. cbn [existsb].
  f_equal; [| f_equal; [| f_equal]]; apply test_caseBlind; try exact E.
  - apply caseBlind_seqs.
    apply Forall_cons; [exact I |]. apply Forall_cons; [| repeat constructor].
    apply caseBlind_alts; [apply caseBlind_wordI | apply Forall_wordI].
  - apply caseBlind_seqs.
    apply Forall_cons; [exact I |]. apply Forall_cons; [| repeat constructor].
    apply caseBlind_alts; [apply caseBlind_wordI | apply Forall_wordI].
  - apply caseBlind_seqs.
    repeat (apply Forall_cons; [first [exact I | apply caseBlind_digit] |]).
    constructor.
Qed.

Lemma toLowerCase_canonicalize (s : jsString) :
  toLowerCase (map canonicalize s) = toLowerCase s.
Proof.
  unfold toLowerCase. rewrite map_map. apply map_ext. apply lowerUnit_canonicalize.
Qed.

Lemma toLowerCase_case (s s' : jsString) :
  map canonicalize s = map canonicalize s' -> toLowerCase s = toLowerCase s'.
Proof.
  intros E.
  rewrite <- (toLowerCase_canonicalize s), <- (toLowerCase_canonicalize s').
  now rewrite E.
Qed.

(** Two passwords that differ in the case of letters [a-z] only get the
    same flags, the repeated flag apart (aaa has it, aAa has not). *)
Theorem flags_ignore_letter_case (password password' : jsString) :
  map canonicalize password = map canonicalize password' ->
  let f := detectPatterns constructor password in
  let f' := detectPatterns constructor password' in
  keyboard f = keyboard f' /\ sequential f = sequential f' /\ date f = date f'
  /\ leet f = leet f' /\ dictionary f = dictionary f' /\ personal f = personal f'.
Proof.
  intros E. cbn zeta. unfold detectPatterns.
  cbn [keyboard sequential date leet dictionary personal].
  rewrite (toLowerCase_case _ _ E), (detectPersonalInfo_case _ _ E).
  repeat split; apply test_caseBlind; try exact E.
  - apply caseBlind_keyboard.
  - apply caseBlind_sequential.
  - apply caseBlind_date.
  - apply caseBlind_leet.
Qed.

Lemma flags_ignore_letter_case_witness :
  let f := detectPatterns constructor (lit "QwErTy123") in
  let f' := detectPatterns constructor (lit "qwerty123") in
  keyboard f = keyboard f' /\ sequential f = sequential f' /\ date f = date f'
  /\ leet f = leet f' /\ dictionary f = dictionary f' /\ personal f = personal f'.
Proof.
  apply (flags_ignore_letter_case (lit "QwErTy123") (lit "qwerty123")).
  vm_compute. reflexivity.
Defined.

Lemma repeated_flag_tells_case :
  repeated (detectPatterns constructor (lit "aaa")) = true
  /\ repeated (detectPatterns constructor (lit "aAa")) = false.
Proof. split; vm_compute; reflexivity. Qed.

End LetterCase.

(** ** Advice and issues *)

Section Advice.

Lemma pushIf_app {A : Type} (c : bool) (x : A) (l : list A) :
  pushIf c x l = l ++ (if c then [x] else []).
Proof. unfold pushIf. destruct c; [reflexivity | now rewrite app_nil_r]. Qed.

Lemma pushIf_when_empty {A : Type} (x : A) (l : list A) :
  pushIf (List.length l =? 0)%nat x l = match l with [] => [x] | _ => l end.
Proof. destruct l; reflexivity. Qed.

Lemma triggered_cons (c : bool) (m : string) (t : list (bool * string)) :
  triggered ((c, m) :: t) = (if c then [m] else []) ++ triggered t.
Proof. unfold triggered. destruct c; reflexivity. Qed.

(** The pushes of [generateRecommendations], one after the other, give the
    triggered part of the table. *)
Lemma recommendations_table (password : jsString) (f : PatternFlags)
      (s : StrengthResult) :
  generateRecommendations password f s
  = match triggered (adviceTable password f) with
    | [] => [goodPassword]
    | advice => advice
    end.
Proof.
  unfold generateRecommendations. cbv zeta. rewrite pushIf_when_empty.
  fold goodPassword.
  match goal with
  | |- match ?l with [] => _ | _ => _ end = _ =>
      assert (E : l = triggered (adviceTable password f))
  end.
  { unfold adviceTable. rewrite !triggered_cons, !pushIf_app, !test_Cls.
    cbn [triggered filter map app]. rewrite app_nil_r, <- !app_assoc. reflexivity. }
  rewrite E. destruct (triggered (adviceTable password f)); reflexivity.
Qed.

Lemma filter_map_NoDup {A B : Type} (g : A -> B) (c : A -> bool) (l : list A) :
  NoDup (map g l) -> NoDup (map g (filter c l)).
Proof.
  induction l as [| a l IH]; intros H; [constructor |].
  inversion H as [| ? ? Hn Hl]; subst. simpl.
  destruct (c a); [| now apply IH]. simpl. constructor; [| now apply IH].
  intros Hin. apply Hn. apply in_map_iff in Hin. destruct Hin as (x & E & Hx).
  apply in_map_iff. exists x. split; [exact E |]. apply filter_In in Hx. tauto.
Qed.

Lemma hasMessage_In (m : string) (l : list string) :
  hasMessage m l = true <-> In m l.
Proof.
  unfold hasMessage. rewrite existsb_exists. split.
  - intros (x & Hx & E). apply String.eqb_eq in E. now subst.
  - intros H. exists m. split; [exact H | apply String.eqb_refl].
Qed.

Lemma advice_messages (password : jsString) (f : PatternFlags) :
  map snd (adviceTable password f)
  = ["Increase password length to at least 12 characters";
     "Add lowercase letters"; "Add uppercase letters"; "Add numbers";
     "Add special characters (!@#$%^&*)"; "Avoid repeated characters";
     "Avoid sequential patterns"; "Avoid keyboard patterns";
     "Avoid common dictionary words"; "Avoid dates and years"]%string.
Proof. reflexivity. Qed.

Lemma advice_messages_NoDup (password : jsString) (f : PatternFlags) :
  NoDup (map snd (adviceTable password f))
  /\ ~ In goodPassword (map snd (adviceTable password f)).
Proof.
  rewrite advice_messages. split.
  - repeat (constructor; [rewrite <- hasMessage_In; vm_compute; discriminate |]).
    constructor.
  - rewrite <- hasMessage_In. vm_compute. discriminate.
Qed.

(** The list of recommendations is never empty, has at most ten entries and
    no entry twice, and the good-password message never comes with advice. *)
Theorem recommendations_shape (password : jsString) (f : PatternFlags)
        (s : StrengthResult) :
  generateRecommendations password f s <> []
  /\ (List.length (generateRecommendations password f s) <= 10)%nat
  /\ NoDup (generateRecommendations password f s)
  /\ (In goodPassword (generateRecommendations password f s) ->
      generateRecommendations password f s = [goodPassword]).
Proof.
  rewrite recommendations_table.
  destruct (advice_messages_NoDup password f) as [Hnd Hgood].
  pose proof (filter_map_NoDup snd fst (adviceTable password f) Hnd) as Hnd'.
  assert (Hlen : (List.length (triggered (adviceTable password f)) <= 10)%nat).
  { unfold triggered. rewrite length_map.
    pose proof (filter_length_le fst (adviceTable password f)) as H.
    exact H. }
  assert (Hin : ~ In goodPassword (triggered (adviceTable password f))).
  { intros H. apply Hgood. unfold triggered in H. apply in_map_iff in H.
    destruct H as (x & E & Hx). apply in_map_iff. exists x.
    split; [exact E |]. apply filter_In in Hx. tauto. }
  fold (triggered (adviceTable password f)) in Hnd'.
  destruct (triggered (adviceTable password f)) as [| a l] eqn:E.
  - split; [discriminate |]. split; [simpl; lia |].
    split; [constructor; [intros [] | constructor] |]. intros _. reflexivity.
  - split; [discriminate |]. split; [exact Hlen |]. split; [exact Hnd' |].
    intros H. contradiction.
Qed.

Lemma issue_has_symbol (password : jsString) (f : PatternFlags) :
  hasMessage "No special characters used"
    (map message (identifySecurityIssues password f))
  = negb (existsb (fun u => negb (isAlnum u)) password).
Proof.
  unfold identifySecurityIssues. rewrite test_Cls.
  destruct (dictionary f), (List.length password <? 8)%nat, (repeated f),
    (keyboard f), (personal f), (existsb (fun u => negb (isAlnum u)) password);
    reflexivity.
Qed.

Lemma issue_too_short (password : jsString) (f : PatternFlags) :
  hasMessage "Password is too short (less than 8 characters)"
    (map message (identifySecurityIssues password f))
  = (List.length password <? 8)%nat.
Proof.
  unfold identifySecurityIssues. rewrite test_Cls.
  destruct (dictionary f), (List.length password <? 8)%nat, (repeated f),
    (keyboard f), (personal f), (existsb (fun u => negb (isAlnum u)) password);
    reflexivity.
Qed.

Lemma hasMessage_app (m : string) (l1 l2 : list string) :
  hasMessage m (l1 ++ l2) = hasMessage m l1 || hasMessage m l2.
Proof. apply existsb_app. Qed.

Lemma hasMessage_row (m x : string) (c : bool) :
  hasMessage m (if c then [x] else []) = c && String.eqb m x.
Proof. destruct c; simpl; [apply orb_false_r | reflexivity]. Qed.

Lemma hasMessage_or_good (m : string) (l : list string) :
  String.eqb m goodPassword = false ->
  hasMessage m (match l with [] => [goodPassword] | a :: t => a :: t end)
  = hasMessage m l.
Proof. intros H. destruct l; [simpl; now rewrite H | reflexivity]. Qed.

Lemma advice_has_symbol (password : jsString) (f : PatternFlags) (s : StrengthResult) :
  hasMessage "Add special characters (!@#$%^&*)"
    (generateRecommendations password f s)
  = negb (existsb (fun u => negb (isAlnum u)) password).
Proof.
  rewrite recommendations_table, hasMessage_or_good by reflexivity.
  unfold adviceTable. rewrite !triggered_cons, !hasMessage_app, !hasMessage_row.
  simpl String.eqb. cbn [triggered filter map hasMessage existsb].
  rewrite !andb_false_r, andb_true_r, !orb_false_r. reflexivity.
Qed.

Lemma advice_length_first (password : jsString) (f : PatternFlags) (s : StrengthResult) :
  (List.length password <? 12)%nat = true ->
  hd_error (generateRecommendations password f s)
  = Some "Increase password length to at least 12 characters"%string.
Proof.
  intros H. rewrite recommendations_table. unfold adviceTable.
  rewrite triggered_cons, H. reflexivity.
Qed.

(** The issues and the advice of a report agree: the issue about missing
    special characters comes exactly with the advice to add some, and a
    password reported as too short has the length advice first. *)
Theorem issues_match_advice (this : PasswordAnalyzer) (password : jsString) :
  let r := performAnalysis this password in
  (In "No special characters used"%string (map message (securityIssues r))
   <-> In "Add special characters (!@#$%^&*)"%string (recommendations r))
  /\ (In "Password is too short (less than 8 characters)"%string
         (map message (securityIssues r)) ->
      hd_error (recommendations r)
      = Some "Increase password length to at least 12 characters"%string).
Proof.
  cbn zeta. unfold performAnalysis. cbn [securityIssues recommendations].
  rewrite <- !hasMessage_In. rewrite issue_has_symbol, advice_has_symbol, issue_too_short.
  split; [tauto |].
  intros H. apply advice_length_first.
  apply Nat.ltb_lt in H. apply Nat.ltb_lt. lia.
Qed.

Lemma issues_match_advice_witness :
  (In "No special characters used"%string
      (map message (securityIssues (performAnalysis constructor (lit "abc"))))
   <-> In "Add special characters (!@#$%^&*)"%string
          (recommendations (performAnalysis constructor (lit "abc"))))
  /\ (In "Password is too short (less than 8 characters)"%string
         (map message (securityIssues (performAnalysis constructor (lit "abc")))) ->
      hd_error (recommendations (performAnalysis constructor (lit "abc")))
      = Some "Increase password length to at least 12 characters"%string).
Proof. exact (issues_match_advice constructor (lit "abc")). Defined.

(** The issues come by severity, high before medium before low, and there
    are at most six of them. *)
Theorem issues_by_severity (password : jsString) (f : PatternFlags) :
  nonIncreasing (map (fun i => severityRank (severity i))
                     (identifySecurityIssues password f)) = true
  /\ (List.length (identifySecurityIssues password f) <= 6)%nat.
Proof.
  unfold identifySecurityIssues.
  destruct (dictionary f), (List.length password <? 8)%nat, (repeated f),
    (keyboard f), (personal f),
    (negb (test (Cls (fun u => negb (isAlnum u))) password));
    split; try reflexivity; simpl; lia.
Qed.

End Advice.

(** ** The stored report and the export *)

Section StoredReport.

Lemma run_lastAnalysis (values : list jsString) :
  forall (this : PasswordAnalyzer) (acc : option jsString),
    commonPasswords this = commonPasswords constructor ->
    commonPatterns this = commonPatterns constructor ->
    lastAnalysis this
    = option_map (fun v => (performAnalysis constructor (trim v), "***hidden***"%string))
                 acc ->
    lastAnalysis (run this values)
    = option_map (fun v => (performAnalysis constructor (trim v), "***hidden***"%string))
        (fold_left (fun acc value => match trim value with
                                     | [] => acc
                                     | _ :: _ => Some value
                                     end) values acc).
Proof.
  induction values as [| v vs IH]; intros this acc Hw Hp Hl; [exact Hl |].
  unfold run in *. cbn [fold_left].
  destruct (analyzePassword_fields this v) as [Hw' Hp'].
  apply IH; [congruence | congruence |].
  unfold analyzePassword. destruct (trim v) as [| u t] eqn:E; cbn [fst]; [exact Hl |].
  cbn [displayResults lastAnalysis option_map]. rewrite E.
  now rewrite (performAnalysis_fields this constructor (u :: t) Hw Hp).
Qed.

(** After any history of inputs, [exportResults] alerts when no input was
    accepted yet; otherwise it exports the report of the last accepted
    input (rejected inputs in between do not count), and in place of the
    password the text ***hidden***. *)
Theorem export_last_accepted (values : list jsString) :
  exportResults (run constructor values)
  = match lastAccepted values with
    | None => ExportAlert "No analysis results to export"
    | Some v =>
        Exported {| exportedAnalysis := performAnalysis constructor (trim v);
                    exportedPassword := "***hidden***" |}
    end.
Proof.
  unfold exportResults, lastAccepted.
  rewrite (run_lastAnalysis values constructor None eq_refl eq_refl eq_refl).
  destruct (fold_left _ values None); reflexivity.
Qed.

End StoredReport.

(** ** White space around the input *)

Section WhiteSpace.

Lemma trimStart_ws (w x : jsString) :
  forallb isWhiteSpace w = true -> trimStart (w ++ x) = trimStart x.
Proof.
  induction w as [| u t IH]; intros H; [reflexivity |].
  simpl in H. apply andb_true_iff in H. destruct H as [Hu Ht].
  simpl. rewrite Hu. now apply IH.
Qed.

Lemma trimStart_nil (v : jsString) :
  trimStart v = [] -> forallb isWhiteSpace v = true.
Proof.
  induction v as [| u t IH]; intros H; [reflexivity |].
  simpl in *. destruct (isWhiteSpace u); [now apply IH | discriminate H].
Qed.

Lemma trimStart_app (v x : jsString) :
  trimStart v <> [] -> trimStart (v ++ x) = trimStart v ++ x.
Proof.
  induction v as [| u t IH]; intros H; [simpl in H; congruence |].
  simpl in *. destruct (isWhiteSpace u); [now apply IH | reflexivity].
Qed.

Lemma forallb_rev (w : jsString) :
  forallb isWhiteSpace w = true -> forallb isWhiteSpace (rev w) = true.
Proof.
  rewrite !forallb_forall. intros H u Hu. apply H. now apply in_rev.
Qed.

Lemma trim_pad (ws1 v ws2 : jsString) :
  forallb isWhiteSpace ws1 = true -> forallb isWhiteSpace ws2 = true ->
  trim (ws1 ++ v ++ ws2) = trim v.
Proof.
  intros H1 H2. unfold trim. rewrite (trimStart_ws ws1 _ H1).
  destruct (trimStart v) as [| a t] eqn:E.
  - apply trimStart_nil in E.
    assert (Hall : forallb isWhiteSpace (v ++ ws2) = true).
    { rewrite forallb_app, E, H2. reflexivity. }
    rewrite <- (app_nil_r (v ++ ws2)), (trimStart_ws _ [] Hall). reflexivity.
  - rewrite trimStart_app by (rewrite E; discriminate). rewrite E.
    rewrite rev_app_distr, (trimStart_ws (rev ws2) _ (forallb_rev ws2 H2)).
    reflexivity.
Qed.

(** White space before and after the input does not count: the padded
    input is handled as the input itself. *)
Theorem padding_is_ignored (this : PasswordAnalyzer) (ws1 value ws2 : jsString) :
  forallb isWhiteSpace ws1 = true ->
  forallb isWhiteSpace ws2 = true ->
  analyzePassword this (ws1 ++ value ++ ws2) = analyzePassword this value.
Proof.
  intros H1 H2. unfold analyzePassword. now rewrite (trim_pad ws1 value ws2 H1 H2).
Qed.

Lemma padding_is_ignored_witness :
  analyzePassword constructor (lit "  " ++ lit "pass word" ++ [9%N; 10%N])
  = analyzePassword constructor (lit "pass word").
Proof.
  apply (padding_is_ignored constructor (lit "  ") (lit "pass word") [9%N; 10%N]);
    vm_compute; reflexivity.
Defined.

End WhiteSpace.

(** ** The password generator *)

Section PasswordGenerator.

Local Open Scope R_scope.

(** The length asked for is brought between [lo] and [hi]. *)
Lemma clamp_range (lo hi d : R) (parsed : number) :
  lo <= hi -> d <> 0 ->
  exists r, Math_max (Fin lo) (Math_min (Fin hi) (orElse parsed (Fin d))) = Fin r
            /\ lo <= r <= hi.
Proof.
  intros Hle Hd.
  assert (Hcases : (exists x, orElse parsed (Fin d) = Fin x)
                   \/ orElse parsed (Fin d) = PInf \/ orElse parsed (Fin d) = NInf).
  { destruct parsed as [x | | |]; simpl; eauto.
    destruct (Req_dec_T x 0); eauto. }
  destruct Hcases as [[x ->] | [-> | ->]]; cbn [Math_min Math_max].
  - eexists. split; [reflexivity |]. split; [apply Rmax_l |].
    apply Rmax_lub; [exact Hle | apply Rmin_l].
  - eexists. split; [reflexivity |]. split; [apply Rmax_l |].
    apply Rmax_lub; lra.
  - exists lo. split; [reflexivity | lra].
Qed.

Lemma clamp_integer (lo hi d z : Z) :
  (lo <= hi)%Z -> d <> 0%Z ->
  Math_max (Fin (IZR lo)) (Math_min (Fin (IZR hi)) (orElse (ofZ z) (Fin (IZR d))))
  = ofZ (Z.max lo (Z.min hi (if (z =? 0)%Z then d else z))).
Proof.
  intros Hle Hd. unfold ofZ, orElse.
  assert (E : (if Req_dec_T (IZR z) 0 then Fin (IZR d) else Fin (IZR z))
              = Fin (IZR (if (z =? 0)%Z then d else z))).
  { destruct (Req_dec_T (IZR z) 0) as [H | H], (Z.eqb_spec z 0); try reflexivity.
    - apply eq_IZR in H. contradiction.
    - subst z. contradiction. }
  rewrite E. cbn [Math_min Math_max]. f_equal.
  set (y := if (z =? 0)%Z then d else z).
  unfold Rmin, Rmax.
  destruct (Rle_dec (IZR hi) (IZR y)) as [H1 | H1].
  - apply le_IZR in H1. rewrite Z.min_l by lia.
    destruct (Rle_dec (IZR lo) (IZR hi)) as [H2 | H2].
    + rewrite Z.max_r by lia. reflexivity.
    + exfalso. apply H2. now apply IZR_le.
  - assert (H1' : (y < hi)%Z) by (apply lt_IZR; lra). rewrite Z.min_r by lia.
    destruct (Rle_dec (IZR lo) (IZR y)) as [H2 | H2].
    + apply le_IZR in H2. rewrite Z.max_r by lia. reflexivity.
    + assert (H2' : (y < lo)%Z) by (apply lt_IZR; lra). rewrite Z.max_l by lia.
      reflexivity.
Qed.

Lemma floor_random (x : R) (n : nat) :
  0 <= x < 1 -> (0 < n)%nat ->
  (0 <= floor (x * INR n) < Z.of_nat n)%Z.
Proof.
  intros Hx Hn. apply lt_0_INR in Hn.
  assert (H : (0 <= floor (x * INR n) <= Z.of_nat n - 1)%Z).
  { apply floor_bounds.
    - simpl. nra.
    - rewrite minus_IZR, <- INR_IZR_INZ. nra. }
  lia.
Qed.

Lemma toInteger_ofZ (z : Z) : (0 <= z)%Z -> toInteger (ofZ z) = Some z.
Proof.
  intros Hz. unfold toInteger, ofZ. apply IZR_le in Hz.
  destruct (Rlt_dec (IZR z) 0); [lra |]. now rewrite floor_IZR.
Qed.

(** A random index into a string that is not empty gives one of its code
    units. *)
Lemma charAt_random (chars : jsString) (x : R) :
  0 <= x < 1 -> chars <> [] ->
  exists u,
    charAt chars (Math_floor (mul (Fin x) (ofNat (List.length chars)))) = [u]
    /\ In u chars.
Proof.
  intros Hx Hne.
  assert (Hn : (0 < List.length chars)%nat) by (destruct chars; [congruence | simpl; lia]).
  pose proof (floor_random x _ Hx Hn) as [H0 H1].
  unfold ofNat. cbn [mul Math_floor]. unfold charAt.
  rewrite toInteger_ofZ by exact H0.
  apply Z.leb_le in H0. rewrite H0.
  destruct (nth_error chars (Z.to_nat (floor (x * INR (List.length chars))))) as [u |] eqn:E.
  - exists u. split; [reflexivity |]. eapply nth_error_In, E.
  - apply nth_error_None in E. apply Z.leb_le in H0. lia.
Qed.

(** The loop runs until [i] reaches [len]: it is not the fuel that ends
    it. *)
Lemma passwordLoop_spec (r : R) (random : nat -> R) (chars : jsString) :
  (forall i, 0 <= random i < 1) -> chars <> [] ->
  forall (fuel i : nat) (password : jsString),
    r < INR i + INR fuel ->
    Forall (fun u => In u chars) password ->
    exists m : nat,
      (i <= m)%nat /\ r <= INR m
      /\ (INR i < r -> INR m < r + 1)
      /\ (r <= INR i -> m = i)
      /\ List.length (passwordLoop fuel i (Fin r) random chars password)
         = (List.length password + (m - i))%nat
      /\ Forall (fun u => In u chars)
                (passwordLoop fuel i (Fin r) random chars password).
Proof.
  intros Hrnd Hne. induction fuel as [| fuel IH]; intros i password Hfuel Hpw.
  - simpl in Hfuel. exists i. cbn [passwordLoop].
    split; [lia |]. split; [lra |]. split; [intros H; lra |].
    split; [reflexivity |]. split; [lia | exact Hpw].
  - cbn [passwordLoop].
    destruct (lt (ofNat i) (Fin r)) eqn:Ht;
      [apply lt_fin in Ht; rename Ht into Hlt
      | apply lt_fin_false in Ht; rename Ht into Hge].
    + destruct (charAt_random chars (random i) (Hrnd i) Hne) as (u & -> & Hu).
      rewrite S_INR in Hfuel.
      destruct (IH (S i) (password ++ [u])) as (m & Hm & Hrm & Hup & Hstop & Hlen & Hall).
      { rewrite S_INR. lra. }
      { apply Forall_app. split; [exact Hpw | constructor; [exact Hu | constructor]]. }
      exists m. split; [lia |]. split; [exact Hrm |]. split.
      { intros _. destruct (Rlt_dec (INR (S i)) r) as [H | H]; [now apply Hup |].
        assert (m = S i) by (apply Hstop; lra). subst m. rewrite S_INR. lra. }
      split; [intros H; lra |]. split; [| exact Hall].
      rewrite Hlen, length_app. simpl. lia.
    + exists i. split; [lia |]. split; [lra |]. split; [intros H; lra |].
      split; [reflexivity |]. split; [lia | exact Hpw].
Qed.

Lemma passwordChars_nonempty : passwordChars <> [].
Proof. discriminate. Qed.

Lemma generatePassword_length (parsed : number) (random : nat -> R) (r : R) :
  (forall i, 0 <= random i < 1) ->
  Math_max (Fin 8) (Math_min (Fin 128) (orElse parsed (Fin 16))) = Fin r ->
  8 <= r <= 128 ->
  r <= INR (List.length (generatePassword parsed random)) < r + 1
  /\ Forall (fun u => In u passwordChars) (generatePassword parsed random).
Proof.
  intros Hrnd Hlen Hr. unfold generatePassword. rewrite Hlen.
  destruct (passwordLoop_spec r random passwordChars Hrnd passwordChars_nonempty
              129 0 []) as (m & _ & Hrm & Hup & _ & Hl & Hall).
  { simpl INR at 1. replace (INR 129) with 129 by (simpl; lra). lra. }
  { constructor. }
  rewrite Hl. simpl List.length. rewrite Nat.sub_0_r, Nat.add_0_l.
  split; [| exact Hall]. split; [exact Hrm |]. apply Hup. simpl. lra.
Qed.

(** A generated password has between 8 and 128 characters, all taken from
    the alphabet of the generator; its length is the number asked for when
    that is an integer from 8 to 128, the nearest of 8 and 128 when it is
    outside, and 16 when the answer is not a number or is 0. *)
Theorem generated_password_shape (parsed : number) (random : nat -> R) :
  (forall i, 0 <= random i < 1) ->
  (8 <= List.length (generatePassword parsed random) <= 128)%nat
  /\ Forall (fun u => In u passwordChars) (generatePassword parsed random)
  /\ (forall z : Z,
         parsed = ofZ z ->
         List.length (generatePassword parsed random)
         = Z.to_nat (Z.max 8 (Z.min 128 (if (z =? 0)%Z then 16 else z))))
  /\ (parsed = NaN -> List.length (generatePassword parsed random) = 16%nat).
Proof.
  intros Hrnd.
  destruct (clamp_range 8 128 16 parsed) as (r & Hlen & Hr); [lra | lra |].
  destruct (generatePassword_length parsed random r Hrnd Hlen Hr) as [[H1 H2] Hall].
  assert (Hint : forall z : Z, r = IZR z ->
                 List.length (generatePassword parsed random) = Z.to_nat z).
  { intros z ->. rewrite INR_IZR_INZ in H1, H2.
    apply le_IZR in H1. rewrite <- plus_IZR in H2. apply lt_IZR in H2. lia. }
  split; [| split; [exact Hall | split]].
  - rewrite INR_IZR_INZ in H1, H2.
    assert (A : (8 <= Z.of_nat (List.length (generatePassword parsed random)))%Z).
    { apply le_IZR. lra. }
    assert (B : (Z.of_nat (List.length (generatePassword parsed random)) < 129)%Z).
    { apply lt_IZR. lra. }
    lia.
  - intros z ->. apply Hint.
    pose proof (clamp_integer 8 128 16 z) as E.
    rewrite Hlen in E. unfold ofZ in E.
    assert (E' : Fin r = Fin (IZR (Z.max 8 (Z.min 128 (if (z =? 0)%Z then 16 else z)))))
      by (apply E; lia).
    now injection E'.
  - intros ->. apply (Hint 16%Z).
    cbn [orElse Math_min Math_max] in Hlen. injection Hlen as <-.
    unfold Rmin, Rmax.
    destruct (Rle_dec 128 16); [lra |]. destruct (Rle_dec 8 16); [reflexivity | lra].
Qed.

Lemma generated_password_shape_witness :
  (8 <= List.length (generatePassword (ofZ 20) (fun _ => 0%R)) <= 128)%nat
  /\ Forall (fun u => In u passwordChars) (generatePassword (ofZ 20) (fun _ => 0%R))
  /\ (forall z : Z,
         ofZ 20 = ofZ z ->
         List.length (generatePassword (ofZ 20) (fun _ => 0%R))
         = Z.to_nat (Z.max 8 (Z.min 128 (if (z =? 0)%Z then 16 else z))))
  /\ (ofZ 20 = NaN -> List.length (generatePassword (ofZ 20) (fun _ => 0%R)) = 16%nat).
Proof.
  apply (generated_password_shape (ofZ 20) (fun _ => 0%R)).
  intros _. lra.
Defined.

End PasswordGenerator.

(** ** Generated values and the analysis *)

Section GeneratedAnalysis.

Local Open Scope R_scope.

Lemma trimStart_id (s : jsString) :
  forallb (fun c => negb (isWhiteSpace c)) s = true -> trimStart s = s.
Proof.
  destruct s as [| u t]; [reflexivity |]. simpl. intros H.
  apply andb_true_iff in H. destruct H as [Hu _].
  apply negb_true_iff in Hu. now rewrite Hu.
Qed.

(** A string without white space is its own trimmed form. *)
Lemma trim_id (s : jsString) :
  forallb (fun c => negb (isWhiteSpace c)) s = true -> trim s = s.
Proof.
  intros H. unfold trim. rewrite (trimStart_id s H).
  rewrite trimStart_id; [apply rev_involutive |].
  rewrite forallb_forall in *. intros u Hu. apply H. now apply in_rev.
Qed.

Lemma analyzePassword_accepts (this : PasswordAnalyzer) (s : jsString) :
  s <> [] ->
  forallb (fun c => negb (isWhiteSpace c)) s = true ->
  snd (analyzePassword this s) = Shown (performAnalysis this s).
Proof.
  intros Hne H. rewrite analyzePassword_outcome, (trim_id s H).
  destruct s; [congruence | reflexivity].
Qed.

Lemma passwordChars_no_space (s : jsString) :
  Forall (fun u => In u passwordChars) s ->
  forallb (fun c => negb (isWhiteSpace c)) s = true.
Proof.
  intros H. apply forallb_forall. intros u Hu.
  rewrite Forall_forall in H. specialize (H u Hu).
  assert (A : forallb (fun c => negb (isWhiteSpace c)) passwordChars = true)
    by (vm_compute; reflexivity).
  rewrite forallb_forall in A. now apply A.
Qed.

(** A generated password is always analysed, as it is (it has no white
    space to trim), and the NIST entropy of its report is the finite
    [length * log2 charset]. *)
Theorem generated_password_analysed (this : PasswordAnalyzer) (parsed : number)
        (random : nat -> R) :
  (forall i, 0 <= random i < 1) ->
  snd (analyzePassword this (generatePassword parsed random))
  = Shown (performAnalysis this (generatePassword parsed random))
  /\ nist (entropy (performAnalysis this (generatePassword parsed random)))
     = Fin (INR (List.length (generatePassword parsed random))
            * log2 (INR (charset (entropy (performAnalysis this
                                             (generatePassword parsed random))))))
  /\ 0 < INR (List.length (generatePassword parsed random))
         * log2 (INR (charset (entropy (performAnalysis this
                                          (generatePassword parsed random))))).
Proof.
  intros Hrnd.
  destruct (clamp_range 8 128 16 parsed) as (r & Hlen & Hr); [lra | lra |].
  destruct (generatePassword_length parsed random r Hrnd Hlen Hr) as [[H1 H2] Hall].
  assert (Hne : generatePassword parsed random <> []).
  { intros E. rewrite E in H1. simpl in H1. lra. }
  assert (H156 : (List.length (generatePassword parsed random) <= 156)%nat).
  { apply INR_le. replace (INR 156) with 156 by (simpl; lra). lra. }
  split.
  - apply analyzePassword_accepts; [exact Hne | now apply passwordChars_no_space].
  - cbn [performAnalysis entropy].
    destruct (nist_finite_up_to_156 _ Hne H156) as (_ & Hn & Hpos).
    split; [exact Hn | exact Hpos].
Qed.

Lemma generated_password_analysed_witness :
  snd (analyzePassword constructor (generatePassword NaN (fun _ => / 2)))
  = Shown (performAnalysis constructor (generatePassword NaN (fun _ => / 2)))
  /\ nist (entropy (performAnalysis constructor (generatePassword NaN (fun _ => / 2))))
     = Fin (INR (List.length (generatePassword NaN (fun _ => / 2)))
            * log2 (INR (charset (entropy (performAnalysis constructor
                                             (generatePassword NaN (fun _ => / 2)))))))
  /\ 0 < INR (List.length (generatePassword NaN (fun _ => / 2)))
         * log2 (INR (charset (entropy (performAnalysis constructor
                                          (generatePassword NaN (fun _ => / 2)))))).
Proof.
  apply (generated_password_analysed constructor NaN (fun _ => / 2)).
  intros _. lra.
Defined.



End GeneratedAnalysis.

(** ** The passphrase generator *)

Section PassphraseGenerator.

Local Open Scope R_scope.

Lemma charAt_zero (u : codeUnit) (t : jsString) : charAt (u :: t) (Fin 0) = [u].
Proof.
  unfold charAt, toInteger. destruct (Rlt_dec 0 0); [lra |].
  now rewrite (floor_IZR 0).
Qed.

(** A random index into an array that is not empty gives one of its
    elements. *)
Lemma index_random (words : list jsString) (x : R) :
  0 <= x < 1 -> words <> [] ->
  exists w,
    index words (Math_floor (mul (Fin x) (ofNat (List.length words)))) = Some w
    /\ In w words.
Proof.
  intros Hx Hne.
  assert (Hn : (0 < List.length words)%nat) by (destruct words; [congruence | simpl; lia]).
  pose proof (floor_random x _ Hx Hn) as [H0 H1].
  unfold ofNat. cbn [mul Math_floor]. unfold index, ofZ.
  rewrite isInteger_IZR, floor_IZR.
  apply Z.leb_le in H0. rewrite H0. cbn [andb].
  destruct (nth_error words (Z.to_nat (floor (x * INR (List.length words))))) as [w |] eqn:E.
  - exists w. split; [reflexivity |]. eapply nth_error_In, E.
  - apply nth_error_None in E. apply Z.leb_le in H0. lia.
Qed.

Lemma upper_of_lower (u : codeUnit) :
  isLower u = true ->
  isUpper (upperUnit u) = true /\ isWhiteSpace (upperUnit u) = false.
Proof.
  unfold upperUnit. intros H. rewrite H.
  unfold isLower, inRange in H.
  apply andb_true_iff in H. destruct H as [H1 H2].
  apply N.leb_le in H1, H2.
  assert (Hv : (65 <= u - 32 <= 90)%N) by lia.
  set (v := (u - 32)%N) in *. clearbody v.
  unfold isUpper, isWhiteSpace, inRange.
  repeat match goal with
         | |- context [(?a =? ?b)%N] =>
             replace (a =? b)%N with false by (symmetry; apply N.eqb_neq; lia)
         | |- context [(?a <=? ?b)%N] =>
             first [ replace (a <=? b)%N with true by (symmetry; apply N.leb_le; lia)
                   | replace (a <=? b)%N with false by (symmetry; apply N.leb_gt; lia) ]
         end.
  split; reflexivity.
Qed.

Lemma words_are_lower :
  Forall (fun w => exists u v t,
              w = u :: v :: t /\ isLower u = true /\ isLower v = true
              /\ (3 <= List.length t)%nat
              /\ forallb (fun c => negb (isWhiteSpace c)) w = true)
         passphraseWords.
Proof.
  unfold passphraseWords. cbn [map].
  repeat (apply Forall_cons;
          [do 3 eexists; split; [vm_compute; reflexivity |];
           repeat split; vm_compute; first [reflexivity | lia] |]).
  constructor.
Qed.

Lemma capitalize_word (w : jsString) :
  In w passphraseWords -> capitalized (toUpperCase (charAt w (Fin 0)) ++ tl w).
Proof.
  intros Hw. pose proof words_are_lower as H. rewrite Forall_forall in H.
  destruct (H w Hw) as (u & v & t & -> & Hu & Hv & Hlen & Hns).
  rewrite charAt_zero. cbn [toUpperCase map app tl].
  destruct (upper_of_lower u Hu) as [Hup Hws].
  exists (upperUnit u), v, t. repeat split; try assumption.
  cbn [forallb] in *. rewrite Hws. apply andb_true_iff in Hns. now destruct Hns as [_ ->].
Qed.

Lemma passphraseWords_nonempty : passphraseWords <> [].
Proof. discriminate. Qed.

(** The loop draws words until [i] reaches [count]; no draw fails. *)
Lemma wordLoop_spec (r : R) (random : nat -> R) :
  (forall i, 0 <= random i < 1) ->
  forall (fuel i : nat) (selected : list jsString),
    r < INR i + INR fuel ->
    Forall capitalized selected ->
    exists (m : nat) (selected' : list jsString),
      wordLoop fuel i (Fin r) random passphraseWords selected = Some (selected', m)
      /\ (i <= m)%nat /\ r <= INR m
      /\ (INR i < r -> INR m < r + 1)
      /\ (r <= INR i -> m = i)
      /\ List.length selected' = (List.length selected + (m - i))%nat
      /\ Forall capitalized selected'.
Proof.
  intros Hrnd. induction fuel as [| fuel IH]; intros i selected Hfuel Hsel.
  - simpl in Hfuel. exists i, selected. cbn [wordLoop].
    split; [reflexivity |]. split; [lia |]. split; [lra |]. split; [intros H; lra |].
    split; [reflexivity |]. split; [lia | exact Hsel].
  - cbn [wordLoop].
    destruct (lt (ofNat i) (Fin r)) eqn:Ht;
      [apply lt_fin in Ht; rename Ht into Hlt
      | apply lt_fin_false in Ht; rename Ht into Hge].
    + destruct (index_random passphraseWords (random i) (Hrnd i)
                  passphraseWords_nonempty) as (w & -> & Hw).
      rewrite S_INR in Hfuel.
      destruct (IH (S i) (selected ++ [toUpperCase (charAt w (Fin 0)) ++ tl w]))
        as (m & sel' & E & Hm & Hrm & Hup & Hstop & Hlen & Hall).
      { rewrite S_INR. lra. }
      { apply Forall_app. split; [exact Hsel |].
        constructor; [now apply capitalize_word | constructor]. }
      exists m, sel'. split; [exact E |]. split; [lia |]. split; [exact Hrm |]. split.
      { intros _. destruct (Rlt_dec (INR (S i)) r) as [H | H]; [now apply Hup |].
        assert (m = S i) by (apply Hstop; lra). subst m. rewrite S_INR. lra. }
      split; [intros H; lra |]. split; [| exact Hall].
      rewrite Hlen, length_app. simpl. lia.
    + exists i, selected.
      split; [reflexivity |]. split; [lia |]. split; [lra |]. split; [intros H; lra |].
      split; [reflexivity |]. split; [lia | exact Hsel].
Qed.

Lemma digits_of_random (x : R) :
  0 <= x < 1 ->
  exists d : string,
    toString (Math_floor (mul (Fin x) (Fin 100))) = Some d
    /\ existsb isDigit (lit d) = true
    /\ forallb (fun c => negb (isWhiteSpace c)) (lit d) = true
    /\ (1 <= List.length (lit d))%nat.
Proof.
  intros Hx. cbn [mul Math_floor].
  assert (Hz : (0 <= floor (x * 100) <= 99)%Z) by (apply floor_bounds; simpl; lra).
  rewrite toString_integer by lia.
  eexists. split; [reflexivity |].
  assert (A : forallb (fun n =>
                let d := lit (DecimalString.NilZero.string_of_int
                                (Z.to_int (Z.of_nat n))) in
                existsb isDigit d
                && forallb (fun c => negb (isWhiteSpace c)) d
                && (1 <=? List.length d)%nat) (seq 0 100) = true)
    by (vm_compute; reflexivity).
  rewrite forallb_forall in A.
  specialize (A (Z.to_nat (floor (x * 100)))).
  rewrite Z2Nat.id in A by lia. cbn zeta in A.
  assert (Hin : In (Z.to_nat (floor (x * 100))) (seq 0 100)) by (apply in_seq; lia).
  apply A in Hin. apply andb_true_iff in Hin. destruct Hin as [Hin H3].
  apply andb_true_iff in Hin. destruct Hin as [H1 H2].
  apply Nat.leb_le in H3. auto.
Qed.

Lemma join_length (sep x : jsString) (rest : list jsString) :
  (List.length x <= List.length (join sep (x :: rest)))%nat.
Proof.
  destruct rest as [| y rest]; cbn [join]; [lia |]. rewrite length_app. lia.
Qed.

Lemma join_forallb (P : codeUnit -> bool) (sep : jsString) (a : list jsString) :
  forallb P sep = true -> Forall (fun w => forallb P w = true) a ->
  forallb P (join sep a) = true.
Proof.
  intros Hsep H. induction H as [| x rest Hx Hrest IH]; [reflexivity |].
  destruct rest as [| y rest]; [exact Hx |].
  change (join sep (x :: y :: rest)) with (x ++ sep ++ join sep (y :: rest)).
  rewrite !forallb_app, Hx, Hsep, IH. reflexivity.
Qed.

(** The four class tests, the length and the trimming of a passphrase. *)
Lemma passphrase_classes (selected : list jsString) (d : jsString) :
  (3 <= List.length selected)%nat ->
  Forall capitalized selected ->
  existsb isDigit d = true ->
  forallb (fun c => negb (isWhiteSpace c)) d = true ->
  (1 <= List.length d)%nat ->
  let pp := join (lit "-") selected ++ d in
  existsb isLower pp = true /\ existsb isUpper pp = true
  /\ existsb isDigit pp = true /\ existsb (fun u => negb (isAlnum u)) pp = true
  /\ (18 <= List.length pp)%nat
  /\ forallb (fun c => negb (isWhiteSpace c)) pp = true.
Proof.
  intros Hlen Hcap Hd Hdns Hdl. cbn zeta.
  destruct selected as [| w1 [| w2 [| w3 rest]]]; try (simpl in Hlen; lia).
  assert (Hns : forallb (fun c => negb (isWhiteSpace c))
                        (join (lit "-") (w1 :: w2 :: w3 :: rest)) = true).
  { apply join_forallb; [vm_compute; reflexivity |].
    eapply Forall_impl; [| exact Hcap]. intros w (u & v & t & _ & _ & _ & _ & H).
    exact H. }
  inversion Hcap as [| ? ? (u1 & v1 & t1 & E1 & Hu1 & Hv1 & Hl1 & _) Hcap2]; subst.
  inversion Hcap2 as [| ? ? (u2 & v2 & t2 & E2 & _ & _ & Hl2 & _) Hcap3]; subst.
  inversion Hcap3 as [| ? ? (u3 & v3 & t3 & E3 & _ & _ & Hl3 & _) _]; subst.
  pose proof (join_length (lit "-") (u3 :: v3 :: t3) rest) as Hj.
  change (join (lit "-") ((u1 :: v1 :: t1) :: (u2 :: v2 :: t2) :: (u3 :: v3 :: t3) :: rest))
    with ((u1 :: v1 :: t1) ++ lit "-" ++ (u2 :: v2 :: t2) ++ lit "-"
          ++ join (lit "-") ((u3 :: v3 :: t3) :: rest)) in *.
  set (tail := join (lit "-") ((u3 :: v3 :: t3) :: rest)) in *.
  split; [| split; [| split; [| split; [| split]]]].
  - cbn [app existsb]. rewrite Hv1. now rewrite orb_true_r.
  - cbn [app existsb]. now rewrite Hu1.
  - rewrite existsb_app, Hd. apply orb_true_r.
  - rewrite !existsb_app.
    replace (existsb (fun u => negb (isAlnum u)) (lit "-")) with true
      by (vm_compute; reflexivity).
    now rewrite !orb_true_r.
  - rewrite !length_app. cbn [List.length] in *.
    change (List.length (lit "-")) with 1%nat.
    match type of Hj with
    | (_ <= ?x)%nat => change x with (List.length tail) in Hj
    end.
    revert Hj. generalize (List.length tail). intros n Hj. lia.
  - rewrite forallb_app, Hns, Hdns. reflexivity.
Qed.

Lemma advice_without_classes (password : jsString) (f : PatternFlags)
      (s : StrengthResult) :
  (12 <= List.length password)%nat ->
  existsb isLower password = true -> existsb isUpper password = true ->
  existsb isDigit password = true ->
  existsb (fun u => negb (isAlnum u)) password = true ->
  Forall (fun m => ~ In m (generateRecommendations password f s))
         ["Increase password length to at least 12 characters";
          "Add lowercase letters"; "Add uppercase letters"; "Add numbers";
          "Add special characters (!@#$%^&*)"]%string.
Proof.
  intros Hlen Hl Hu Hd Hs. unfold generateRecommendations.
  rewrite !test_Cls, Hl, Hu, Hd, Hs.
  replace (List.length password <? 12)%nat with false
    by (symmetry; apply Nat.ltb_ge; exact Hlen).
  destruct (repeated f), (sequential f), (keyboard f), (dictionary f), (date f);
    repeat (apply Forall_cons; [rewrite <- hasMessage_In; vm_compute; discriminate |]);
    constructor.
Qed.

(** Whatever is answered to the prompt and whatever the random draws, a
    passphrase is generated (no draw fails) and has at least 18 characters.
    It is always analysed, its character set is 94, and its report never
    has the length advice or the advice to add a class of characters. *)
Theorem passphrase_has_all_classes (parsed : number) (random : nat -> R) :
  (forall i, 0 <= random i < 1) ->
  exists pp,
    generatePassphrase parsed random = Some pp
    /\ (18 <= List.length pp)%nat
    /\ forall this : PasswordAnalyzer,
        snd (analyzePassword this pp) = Shown (performAnalysis this pp)
        /\ charset (entropy (performAnalysis this pp)) = 94%nat
        /\ Forall (fun m => ~ In m (recommendations (performAnalysis this pp)))
             ["Increase password length to at least 12 characters";
              "Add lowercase letters"; "Add uppercase letters"; "Add numbers";
              "Add special characters (!@#$%^&*)"]%string.
Proof.
  intros Hrnd. unfold generatePassphrase.
  destruct (clamp_range 3 8 5 parsed) as (r & -> & Hr); [lra | lra |].
  destruct (wordLoop_spec r random Hrnd 9 0 [])
    as (m & sel & -> & _ & Hrm & _ & _ & Hlen & Hcap).
  { simpl INR at 1. replace (INR 9) with 9 by (simpl; lra). lra. }
  { constructor. }
  destruct (digits_of_random (random m) (Hrnd m)) as (d & -> & Hd & Hdns & Hdl).
  simpl in Hlen. rewrite Nat.sub_0_r in Hlen.
  assert (H3 : (3 <= List.length sel)%nat).
  { rewrite Hlen. apply INR_le. replace (INR 3) with 3 by (simpl; lra). lra. }
  destruct (passphrase_classes sel (lit d) H3 Hcap Hd Hdns Hdl)
    as (Hl & Hu & Hdg & Hs & H18 & Hns).
  eexists. split; [reflexivity |]. split; [exact H18 |].
  intros this. split; [| split].
  - apply analyzePassword_accepts; [| exact Hns].
    intros E. rewrite E in H18. simpl in H18. lia.
  - cbn [performAnalysis entropy]. unfold calculateEntropy. cbn [charset].
    rewrite !test_Cls, Hl, Hu, Hdg, Hs. reflexivity.
  - cbn [performAnalysis recommendations].
    apply advice_without_classes; try assumption. lia.
Qed.

Lemma passphrase_has_all_classes_witness :
  exists pp,
    generatePassphrase NaN (fun _ => / 2) = Some pp
    /\ (18 <= List.length pp)%nat
    /\ forall this : PasswordAnalyzer,
        snd (analyzePassword this pp) = Shown (performAnalysis this pp)
        /\ charset (entropy (performAnalysis this pp)) = 94%nat
        /\ Forall (fun m => ~ In m (recommendations (performAnalysis this pp)))
             ["Increase password length to at least 12 characters";
              "Add lowercase letters"; "Add uppercase letters"; "Add numbers";
              "Add special characters (!@#$%^&*)"]%string.
Proof.
  apply (passphrase_has_all_classes NaN (fun _ => / 2)).
  intros _. lra.
Defined.

Lemma recommendations_shape_witness :
  generateRecommendations (lit "abc") (detectPatterns constructor (lit "abc"))
    (strength (performAnalysis constructor (lit "abc"))) <> []
  /\ (List.length
        (generateRecommendations (lit "abc") (detectPatterns constructor (lit "abc"))
           (strength (performAnalysis constructor (lit "abc")))) <= 10)%nat
  /\ NoDup (generateRecommendations (lit "abc")
              (detectPatterns constructor (lit "abc"))
              (strength (performAnalysis constructor (lit "abc"))))
  /\ (In goodPassword
         (generateRecommendations (lit "abc") (detectPatterns constructor (lit "abc"))
            (strength (performAnalysis constructor (lit "abc")))) ->
      generateRecommendations (lit "abc") (detectPatterns constructor (lit "abc"))
        (strength (performAnalysis constructor (lit "abc"))) = [goodPassword]).
Proof.
  exact (recommendations_shape (lit "abc") (detectPatterns constructor (lit "abc"))
           (strength (performAnalysis constructor (lit "abc")))).
Defined.

End PassphraseGenerator.
